(** * CutItOut: the mask editor's store and canvas viewer

  A shallow embedding of [src/store/useAppStore.ts] (the zustand store:
  brush and view settings, bounded undo/redo history) and of the editing
  logic of [src/components/CanvasViewer.tsx] (layer compositing, the
  smart-selection resolver, keyboard and wheel handlers), followed by the
  properties the specification states about them. The uploader, the
  background-removal hook, the mouse gestures and the image-loading effects
  of the viewer come after, with the properties the code itself shows.

  Conventions.
  - A JS [string | null] is an [option string]; [undefined] read from an
    array out of range is [None] as well.
  - [ImageData.data] (a [Uint8ClampedArray]) is a flat [list Z] of RGBA
    bytes, read with [!!] and written with [<[i:=v]>]; a write out of range
    is dropped by both.
  - A canvas bitmap is the RGBA array that [getImageData] over the whole
    canvas reads from it and [putImageData] writes to it; the three canvases
    of the viewer have the size of the image.
  - JS numbers that hold integers (indices, byte sums, brush size) are [Z]
    or [nat]; the others (zoom, averages, distances) are exact rationals
    [Q]: IEEE rounding is not modelled. *)

From Stdlib Require Import ZArith QArith Qminmax Lia Lra Lqa Reals Qreals.
From stdpp Require Import base list strings.

Open Scope Z_scope.

(** ** JavaScript helpers *)

Module Js.

(** Truthiness of a [string | null]: [null] and the empty string are falsy. *)
Definition truthy (image : option string) : bool :=
  match image with
  | None => false
  | Some s => negb (String.eqb s "")
  end.

(** [arr.slice(0, end)]: a negative [end] counts from the end of the array,
    and the bounds are clamped to the array. *)
Definition slice0 {A} (arr : list A) (end_ : Z) : list A :=
  if end_ <? 0
  then take (Z.to_nat (Z.max (Z.of_nat (length arr) + end_) 0)) arr
  else take (Z.to_nat end_) arr.

(** [arr.push(x)]. *)
Definition push {A} (arr : list A) (x : A) : list A := arr ++ [x].

(** [arr.shift()], for the array that is left. *)
Definition shift {A} (arr : list A) : list A := drop 1 arr.

(** [arr[i]] for a number [i] that holds an integer. *)
Definition index {A} (arr : list A) (i : Z) : option A :=
  if i <? 0 then None else arr !! Z.to_nat i.

(** [arr.length]. *)
Definition len {A} (arr : list A) : Z := Z.of_nat (length arr).

End Js.

(** ** The store, [useAppStore.ts] *)

Module Store.

Inductive BrushMode := erase | restore.

Record AppState := mkAppState {
  originalImage : option string;
  processedImage : option string;
  maskImage : option string;
  isProcessing : bool;
  processingProgress : Z;
  error : option string;
  brushSize : Z;
  brushMode : BrushMode;
  zoom : Q;
  pan : Q * Q;
  history : list string;
  historyIndex : Z
}.

Definition initial : AppState :=
  {| originalImage := None; processedImage := None; maskImage := None;
     isProcessing := false; processingProgress := 0; error := None;
     brushSize := 50; brushMode := erase; zoom := 1%Q; pan := (0%Q, 0%Q);
     history := []; historyIndex := -1 |}.

(** The partial updates [set({...})] the actions perform. *)
Definition set_images (o p m : option string) (s : AppState) : AppState :=
  mkAppState o p m (isProcessing s) (processingProgress s) (error s)
    (brushSize s) (brushMode s) (zoom s) (pan s) (history s) (historyIndex s).

Definition set_error (e : option string) (s : AppState) : AppState :=
  mkAppState (originalImage s) (processedImage s) (maskImage s)
    (isProcessing s) (processingProgress s) e
    (brushSize s) (brushMode s) (zoom s) (pan s) (history s) (historyIndex s).

Definition set_history (h : list string) (i : Z) (s : AppState) : AppState :=
  mkAppState (originalImage s) (processedImage s) (maskImage s)
    (isProcessing s) (processingProgress s) (error s)
    (brushSize s) (brushMode s) (zoom s) (pan s) h i.

Definition setOriginalImage (image : option string) (s : AppState) : AppState :=
  set_history [] (-1) (set_error None (set_images image None None s)).

Definition setProcessedImage (image : option string) (s : AppState) : AppState :=
  let s1 := set_images (originalImage s) image image s in
  if Js.truthy image
  then match image with
       | Some img => set_history [img] 0 s1
       | None => s1
       end
  else s1.

Definition setMaskImage (image : option string) (s : AppState) : AppState :=
  set_images (originalImage s) (processedImage s) image s.

Definition setIsProcessing (b : bool) (s : AppState) : AppState :=
  mkAppState (originalImage s) (processedImage s) (maskImage s)
    b (processingProgress s) (error s)
    (brushSize s) (brushMode s) (zoom s) (pan s) (history s) (historyIndex s).

Definition setProcessingProgress (p : Z) (s : AppState) : AppState :=
  mkAppState (originalImage s) (processedImage s) (maskImage s)
    (isProcessing s) p (error s)
    (brushSize s) (brushMode s) (zoom s) (pan s) (history s) (historyIndex s).

Definition setError (e : option string) (s : AppState) : AppState :=
  set_error e s.

Definition setBrushSize (size : Z) (s : AppState) : AppState :=
  mkAppState (originalImage s) (processedImage s) (maskImage s)
    (isProcessing s) (processingProgress s) (error s)
    size (brushMode s) (zoom s) (pan s) (history s) (historyIndex s).

Definition setBrushMode (mode : BrushMode) (s : AppState) : AppState :=
  mkAppState (originalImage s) (processedImage s) (maskImage s)
    (isProcessing s) (processingProgress s) (error s)
    (brushSize s) mode (zoom s) (pan s) (history s) (historyIndex s).

Definition setZoom (z : Q) (s : AppState) : AppState :=
  mkAppState (originalImage s) (processedImage s) (maskImage s)
    (isProcessing s) (processingProgress s) (error s)
    (brushSize s) (brushMode s) z (pan s) (history s) (historyIndex s).

Definition setPan (p : Q * Q) (s : AppState) : AppState :=
  mkAppState (originalImage s) (processedImage s) (maskImage s)
    (isProcessing s) (processingProgress s) (error s)
    (brushSize s) (brushMode s) (zoom s) p (history s) (historyIndex s).

(** [addToHistory]: cut the redo branch, append, keep at most 10 entries. *)
Definition addToHistory (mask : string) (s : AppState) : AppState :=
  let newHistory := Js.slice0 (history s) (historyIndex s + 1) in
  let newHistory := Js.push newHistory mask in
  let newHistory :=
    if Js.len newHistory >? 10 then Js.shift newHistory else newHistory in
  set_history newHistory (Js.len newHistory - 1)
    (set_images (originalImage s) (Some mask) (Some mask) s).

Definition undo (s : AppState) : AppState :=
  if historyIndex s >? 0 then
    let newIndex := historyIndex s - 1 in
    let prevImage := Js.index (history s) newIndex in
    set_history (history s) newIndex
      (set_images (originalImage s) prevImage prevImage s)
  else s.

Definition redo (s : AppState) : AppState :=
  if historyIndex s <? Js.len (history s) - 1 then
    let newIndex := historyIndex s + 1 in
    let nextImage := Js.index (history s) newIndex in
    set_history (history s) newIndex
      (set_images (originalImage s) nextImage nextImage s)
  else s.

Definition reset (s : AppState) : AppState :=
  mkAppState None None None false 0 None
    (brushSize s) (brushMode s) 1%Q (0%Q, 0%Q) [] (-1).

(** The store's actions, and runs of them. *)
Inductive Action :=
| SetOriginalImage (image : option string)
| SetProcessedImage (image : option string)
| SetMaskImage (image : option string)
| SetIsProcessing (b : bool)
| SetProcessingProgress (p : Z)
| SetError (e : option string)
| SetBrushSize (size : Z)
| SetBrushMode (mode : BrushMode)
| SetZoom (z : Q)
| SetPan (p : Q * Q)
| AddToHistory (mask : string)
| Undo
| Redo
| Reset.

Definition step (s : AppState) (a : Action) : AppState :=
  match a with
  | SetOriginalImage image => setOriginalImage image s
  | SetProcessedImage image => setProcessedImage image s
  | SetMaskImage image => setMaskImage image s
  | SetIsProcessing b => setIsProcessing b s
  | SetProcessingProgress p => setProcessingProgress p s
  | SetError e => setError e s
  | SetBrushSize size => setBrushSize size s
  | SetBrushMode mode => setBrushMode mode s
  | SetZoom z => setZoom z s
  | SetPan p => setPan p s
  | AddToHistory mask => addToHistory mask s
  | Undo => undo s
  | Redo => redo s
  | Reset => reset s
  end.

Definition run (acts : list Action) (s : AppState) : AppState :=
  foldl step s acts.

(** The entry the active index points at, [history[historyIndex]]. *)
Definition active (s : AppState) : option string :=
  Js.index (history s) (historyIndex s).

End Store.

(** ** The 2D canvas context, as far as [render] uses it *)

Module Canvas.

(** [ctx.filter]: either [none] or [opacity(amount)]. *)
Inductive Filter := filter_none | filter_opacity (amount : Q).

(** The part of the drawing state that [save] and [restore] keep. *)
Record DrawState := mkDrawState { globalAlpha : Q; filter : Filter }.

Definition defaultState : DrawState :=
  {| globalAlpha := 1%Q; filter := filter_none |}.

(** The three bitmaps the viewer draws from. *)
Inductive Source := src_original | src_edited | src_selection.

(** What reaches the output bitmap: each [drawImage] is recorded with the
    drawing state in force when it ran. *)
Inductive Op :=
| ClearRect
| DrawImage (src : Source) (st : DrawState).

Record Ctx := mkCtx {
  state : DrawState;
  stack : list DrawState;
  ops : list Op
}.

Definition fresh : Ctx := mkCtx defaultState [] [].

Definition save (c : Ctx) : Ctx :=
  mkCtx (state c) (state c :: stack c) (ops c).

Definition restore (c : Ctx) : Ctx :=
  match stack c with
  | [] => c
  | st :: rest => mkCtx st rest (ops c)
  end.

Definition setGlobalAlpha (a : Q) (c : Ctx) : Ctx :=
  mkCtx (mkDrawState a (filter (state c))) (stack c) (ops c).

Definition setFilter (f : Filter) (c : Ctx) : Ctx :=
  mkCtx (mkDrawState (globalAlpha (state c)) f) (stack c) (ops c).

Definition clearRect (c : Ctx) : Ctx :=
  mkCtx (state c) (stack c) (ops c ++ [ClearRect]).

Definition drawImage (src : Source) (c : Ctx) : Ctx :=
  mkCtx (state c) (stack c) (ops c ++ [DrawImage src (state c)]).

(** The drawing model of the 2D context: the image drawn is first run
    through the current filter, then the alpha of every pixel of the result
    is multiplied by [globalAlpha], then it is composited onto the bitmap.
    With the filter [opacity(a)], which multiplies alpha by [a], a source
    pixel's alpha is therefore multiplied by the product of the two. *)
Definition filterFactor (f : Filter) : Q :=
  match f with
  | filter_none => 1
  | filter_opacity a => a
  end.

Definition opacity (st : DrawState) : Q :=
  globalAlpha st * filterFactor (filter st).

End Canvas.

(** ** The viewer, [CanvasViewer.tsx] *)

Module Viewer.

Import Store.

Definition Qltb (x y : Q) : bool := negb (Qle_bool y x).

(** [data[i]] on pixel data; [0] stands for the [undefined] of a read out
    of range, which passes none of the tests below either. *)
Definition byteAt (data : list Z) (i : nat) : Z := default 0 (data !! i).

(** The values [i] takes in [for (let i = 0; i < data.length; i += 4)]. *)
Definition pixelStarts (data : list Z) : list nat :=
  (λ k, 4 * k)%nat <$> seq 0 ((length data + 3) / 4)%nat.

Record Viewer := mkViewer {
  canvas : bool;                      (* canvasRef.current is mounted *)
  imgObj : option (list Z);           (* the decoded original, RGBA *)
  offscreen : option (list Z);        (* offscreenCanvasRef: the edited raster *)
  selectionCanvas : option (list Z);  (* selectionCanvasRef: the stroke *)
  isDragging : bool;
  store : AppState
}.

(** *** [render]

    The frame is what the calls on the context of the visible canvas draw;
    resizing the canvas to the image is left out. *)

Definition render (v : Viewer) (ctx : Canvas.Ctx) : Canvas.Ctx :=
  if negb (canvas v) || negb (bool_decide (is_Some (offscreen v)))
     || negb (bool_decide (is_Some (imgObj v)))
  then ctx
  else
    let ctx := Canvas.clearRect ctx in
    (* 1. ghost overlay, bottom layer *)
    let ctx :=
      match brushMode (store v) with
      | restore =>
          Canvas.restore
            (Canvas.drawImage Canvas.src_original
               (Canvas.setFilter (Canvas.filter_opacity 0.3)
                  (Canvas.setGlobalAlpha 0.3 (Canvas.save ctx))))
      | erase => ctx
      end in
    (* 2. the edited image, middle layer *)
    let ctx := Canvas.drawImage Canvas.src_edited ctx in
    (* 3. selection overlay, top layer *)
    if bool_decide (is_Some (selectionCanvas v)) && isDragging v
    then Canvas.restore
           (Canvas.drawImage Canvas.src_selection
              (Canvas.setGlobalAlpha 0.4 (Canvas.save ctx)))
    else ctx.

(** *** [applySmartSelection] *)

(** [colorDistance], on real numbers. *)
Definition colorDistance (r1 g1 b1 r2 g2 b2 : R) : R :=
  sqrt ((r1 - r2) ^ 2 + (g1 - g2) ^ 2 + (b1 - b2) ^ 2)%R.

Definition tolerance : Q := 80.

(** The test [colorDistance(r, g, b, avgR, avgG, avgB) < tolerance] is run
    on the squares, which are rationals when the arguments are:
    [withinTolerance_colorDistance] below shows it is the same test. *)
Definition colorDistanceSq (r1 g1 b1 r2 g2 b2 : Q) : Q :=
  ((r1 - r2) ^ 2 + (g1 - g2) ^ 2 + (b1 - b2) ^ 2)%Q.

Definition withinTolerance (r g b avgR avgG avgB : Q) : bool :=
  Qltb (colorDistanceSq r g b avgR avgG avgB) (tolerance ^ 2).

Record Totals := mkTotals { totalR : Z; totalG : Z; totalB : Z; count : Z }.

(** One turn of the first loop. *)
Definition accumulate (selectionData originalData : list Z)
    (t : Totals) (i : nat) : Totals :=
  if byteAt selectionData (i + 3) >? 0
  then mkTotals (totalR t + byteAt originalData i)
                (totalG t + byteAt originalData (i + 1))
                (totalB t + byteAt originalData (i + 2))
                (count t + 1)
  else t.

Definition totals (selectionData originalData : list Z) : Totals :=
  foldl (accumulate selectionData originalData) (mkTotals 0 0 0 0)
    (pixelStarts selectionData).

(** One turn of the second loop. *)
Definition editPixel (mode : BrushMode) (selectionData originalData : list Z)
    (avgR avgG avgB : Q) (maskData : list Z) (i : nat) : list Z :=
  if byteAt selectionData (i + 3) >? 0 then
    let r := byteAt originalData i in
    let g := byteAt originalData (i + 1) in
    let b := byteAt originalData (i + 2) in
    if withinTolerance (inject_Z r) (inject_Z g) (inject_Z b) avgR avgG avgB
    then match mode with
         | erase => <[(i + 3)%nat := 0]> maskData
         | restore =>
             <[(i + 3)%nat := 255]>
               (<[(i + 2)%nat := b]> (<[(i + 1)%nat := g]> (<[i := r]> maskData)))
         end
    else maskData
  else maskData.

(** The two tests of a turn of the second loop, for pixel [k]. *)
Definition chosen (selectionData originalData : list Z) (avgR avgG avgB : Q)
    (k : nat) : bool :=
  (byteAt selectionData (4 * k + 3) >? 0)
  && withinTolerance (inject_Z (byteAt originalData (4 * k)))
       (inject_Z (byteAt originalData (4 * k + 1)))
       (inject_Z (byteAt originalData (4 * k + 2))) avgR avgG avgB.

Section WithEncoder.

(** [osc.toDataURL()]: the serialised snapshot of a raster. *)
Variable toDataURL : list Z → string.

Definition applySmartSelection (v : Viewer) : Viewer :=
  match offscreen v, selectionCanvas v, canvas v, imgObj v with
  | Some maskData, Some selectionData, true, Some originalData =>
      let t := totals selectionData originalData in
      if count t =? 0 then v
      else
        let avgR := (inject_Z (totalR t) / inject_Z (count t))%Q in
        let avgG := (inject_Z (totalG t) / inject_Z (count t))%Q in
        let avgB := (inject_Z (totalB t) / inject_Z (count t))%Q in
        let maskData' :=
          foldl (editPixel (brushMode (store v)) selectionData originalData
                   avgR avgG avgB)
            maskData (pixelStarts selectionData) in
        mkViewer (canvas v) (imgObj v) (Some maskData')
          (Some (replicate (length selectionData) 0))
          (isDragging v)
          (addToHistory (toDataURL maskData') (store v))
  | _, _, _, _ => v
  end.

Definition handleMouseUp (v : Viewer) : Viewer :=
  let v := if isDragging v then applySmartSelection v else v in
  mkViewer (canvas v) (imgObj v) (offscreen v) (selectionCanvas v) false
    (store v).

End WithEncoder.

(** *** Keyboard, wheel and toolbar *)

Record KeyboardEvent := mkKey {
  key : string; ctrlKey : bool; metaKey : bool; shiftKey : bool
}.

Definition handleKeyDown (e : KeyboardEvent) (s : AppState) : AppState :=
  if String.eqb (key e) "[" then setBrushSize (Z.max (brushSize s - 10) 10) s
  else if String.eqb (key e) "]" then setBrushSize (Z.min (brushSize s + 10) 200) s
  else if String.eqb (key e) "e" then setBrushMode erase s
  else if String.eqb (key e) "r" then setBrushMode restore s
  else if (ctrlKey e || metaKey e) && String.eqb (key e) "z" then
    if shiftKey e then redo s else undo s
  else s.

Record WheelEvent := mkWheel {
  deltaY : Q; wheelCtrlKey : bool; wheelMetaKey : bool
}.

Definition handleWheel (e : WheelEvent) (s : AppState) : AppState :=
  if wheelCtrlKey e || wheelMetaKey e then
    let delta := if Qltb 0 (deltaY e) then 0.9%Q else 1.1%Q in
    let newZoom := Qmin (Qmax (zoom s * delta) 0.1) 5 in
    setZoom newZoom s
  else s.

(** The [onClick] handlers of the toolbar's size and zoom buttons. *)
Definition clickBrushMinus (s : AppState) : AppState :=
  setBrushSize (Z.max (brushSize s - 10) 10) s.
Definition clickBrushPlus (s : AppState) : AppState :=
  setBrushSize (Z.min (brushSize s + 10) 200) s.
Definition clickZoomOut (s : AppState) : AppState :=
  setZoom (Qmax (zoom s - 0.1) 0.1) s.
Definition clickZoomIn (s : AppState) : AppState :=
  setZoom (Qmin (zoom s + 0.1) 5) s.

Inductive UiEvent :=
| KeyDown (e : KeyboardEvent)
| Wheel (e : WheelEvent)
| ClickBrushMinus | ClickBrushPlus | ClickZoomOut | ClickZoomIn.

Definition handle (s : AppState) (ev : UiEvent) : AppState :=
  match ev with
  | KeyDown e => handleKeyDown e s
  | Wheel e => handleWheel e s
  | ClickBrushMinus => clickBrushMinus s
  | ClickBrushPlus => clickBrushPlus s
  | ClickZoomOut => clickZoomOut s
  | ClickZoomIn => clickZoomIn s
  end.

End Viewer.

(** ** The specification's vocabulary *)

Module Spec.

Import Store Viewer.

(** *** History *)

(** The index points at an entry. *)
Definition indexValid (s : AppState) : Prop :=
  0 ≤ historyIndex s < Js.len (history s).

(** What every run of the store keeps: no entry and index -1, or an index
    that points at one of at most 10 entries. *)
Definition historyInv (s : AppState) : Prop :=
  (history s = [] ∧ historyIndex s = -1)
  ∨ (indexValid s ∧ Js.len (history s) ≤ 10).

(** The mask image is the entry under the index. *)
Definition coherent (s : AppState) : Prop := maskImage s = active s.

(** "commit then undo restores the immediately prior snapshot": both the
    mask image and the entry under the index are what they were. *)
Definition commitUndoRestores (m : string) (s : AppState) : Prop :=
  let s' := undo (addToHistory m s) in
  maskImage s' = maskImage s ∧ active s' = active s.

(** "setProcessedImage makes the image the one-entry history". *)
Definition historyInitialisedTo (image : string) (s : AppState) : Prop :=
  history s = [image] ∧ historyIndex s = 0 ∧ maskImage s = Some image.

(** *** Brush size and zoom *)

Definition brushSizeInRange (s : AppState) : Prop :=
  10 ≤ brushSize s ≤ 200.

Definition zoomInRange (s : AppState) : Prop :=
  (0.1 <= zoom s)%Q ∧ (zoom s <= 5)%Q.

(** "the setters clamp what they are given". *)
Definition settersClamp (size : Z) (z : Q) (s : AppState) : Prop :=
  brushSizeInRange (setBrushSize size s) ∧ zoomInRange (setZoom z s).

(** [x] clamped to [lo, hi]. *)
Definition clamp (lo hi x : Q) : Q :=
  if Qltb x lo then lo else if Qltb hi x then hi else x.

(** *** Keyboard *)

(** The Z key reports [key] as "z", or as "Z" when Shift or CapsLock
    applies. *)
Definition isZKey (e : KeyboardEvent) : Prop :=
  key e = "z" ∨ key e = "Z".

Definition platformModifier (e : KeyboardEvent) : Prop :=
  ctrlKey e = true ∨ metaKey e = true.

(** *** Smart selection *)

(** Pixel [k] of a flat RGBA array. *)
Definition rgba (data : list Z) (k : nat)
    : option Z * option Z * option Z * option Z :=
  (data !! (4 * k)%nat, data !! (4 * k + 1)%nat,
   data !! (4 * k + 2)%nat, data !! (4 * k + 3)%nat).

(** Pixel [k] of the selection is marked: its alpha is above 0. *)
Definition marked (selection : list Z) (k : nat) : Prop :=
  0 < byteAt selection (4 * k + 3).

(** The marked pixels among the first [n]. *)
Definition markedPixels (selection : list Z) (n : nat) : list nat :=
  filter (λ k, 0 < byteAt selection (4 * k + 3)) (seq 0 n).

(** Sum and arithmetic mean of channel [c] of [original] over pixels [ks]. *)
Definition channelSum (original : list Z) (c : nat) (ks : list nat) : Z :=
  foldr Z.add 0 ((λ k, byteAt original (4 * k + c)) <$> ks).

Definition mean (original : list Z) (c : nat) (ks : list nat) : Q :=
  (inject_Z (channelSum original c ks) / inject_Z (Z.of_nat (length ks)))%Q.

(** Euclidean distance in RGB space, over the reals. *)
Definition distance (r1 g1 b1 r2 g2 b2 : R) : R :=
  sqrt ((r1 - r2) * (r1 - r2) + (g1 - g2) * (g1 - g2)
        + (b1 - b2) * (b1 - b2))%R.

(** Pixel [k] is marked and its original colour is closer than 80 to the
    mean original colour of the marked pixels. *)
Definition resolved (selection original : list Z) (n k : nat) : Prop :=
  let ks := markedPixels selection n in
  marked selection k ∧
  (distance (IZR (byteAt original (4 * k)))
            (IZR (byteAt original (4 * k + 1)))
            (IZR (byteAt original (4 * k + 2)))
            (Q2R (mean original 0 ks)) (Q2R (mean original 1 ks))
            (Q2R (mean original 2 ks)) < 80)%R.

(** What a resolved pixel becomes. *)
Definition editedPixel (mode : BrushMode) (original edited : list Z) (k : nat)
    : option Z * option Z * option Z * option Z :=
  match mode with
  | erase =>
      (edited !! (4 * k)%nat, edited !! (4 * k + 1)%nat,
       edited !! (4 * k + 2)%nat, Some 0)
  | restore =>
      (original !! (4 * k)%nat, original !! (4 * k + 1)%nat,
       original !! (4 * k + 2)%nat, Some 255)
  end.

(** *** Rendering *)

(** The layers a frame is made of, bottom first, each with the factor its
    alpha is multiplied by. *)
Definition layers (c : Canvas.Ctx) : list (Canvas.Source * Q) :=
  omap (λ op, match op with
              | Canvas.DrawImage src st => Some (src, Canvas.opacity st)
              | Canvas.ClearRect => None
              end) (Canvas.ops c).

End Spec.

(** ** Data of the scenarios *)

Module Scenario.

Import Store Viewer.

(** Eleven commits in a row, from the initial store. *)
Definition elevenCommits : AppState :=
  run (AddToHistory <$>
         ["s1"; "s2"; "s3"; "s4"; "s5"; "s6"; "s7"; "s8"; "s9"; "s10"; "s11"])
    initial.

(** Three pixels, the first and the third marked; their original colours
    (10 and 12 on each channel) lie near their mean, the second pixel is
    not marked. *)
Definition threePixels (mode : BrushMode) : Viewer :=
  mkViewer true
    (Some [10; 10; 10; 255; 200; 200; 200; 255; 12; 12; 12; 255])
    (Some [1; 1; 1; 255; 2; 2; 2; 255; 3; 3; 3; 77])
    (Some [239; 68; 68; 255; 0; 0; 0; 0; 239; 68; 68; 9])
    true (setBrushMode mode (setProcessedImage (Some "p") initial)).

End Scenario.

(** ** The uploader, [ImageUploader.tsx] *)

Module Uploader.

Import Store.

(** A dropped file, as what [FileReader.readAsDataURL] makes of it: the
    data URL handed to [reader.onload], or [None] when the read fails and
    [onload] never runs. *)
Definition File : Type := option string.

Definition onDrop (acceptedFiles : list File) (s : AppState) : AppState :=
  match acceptedFiles !! 0%nat with
  | Some (Some result) => setOriginalImage (Some result) s
  | Some None => s
  | None => s
  end.

End Uploader.

(** ** Background removal, [useBackgroundRemoval] *)

Module Removal.

Import Store.

(** How [backgroundRemovalService.removeBackground] settles: with a blob,
    of which [URL.createObjectURL] makes a URL, or with an error. *)
Inductive Outcome := Fulfilled (url : string) | Rejected.

Definition failureMessage : string :=
  "Failed to remove background. Please try again.".

(** [processImage] up to the [await]. *)
Definition processStart (s : AppState) : AppState :=
  setProcessingProgress 0 (setError None (setIsProcessing true s)).

(** [processImage] from the [await] on: [try], [catch], [finally]. *)
Definition processEnd (o : Outcome) (s : AppState) : AppState :=
  setIsProcessing false
    match o with
    | Fulfilled url => setProcessedImage (Some url) s
    | Rejected => setError (Some failureMessage) s
    end.

(** The effect, with the store actions [between] that run while the
    removal is awaited. *)
Definition useBackgroundRemoval (between : list Action) (o : Outcome)
    (s : AppState) : AppState :=
  if Js.truthy (originalImage s)
  then processEnd o (run between (processStart s))
  else s.

End Removal.

(** ** The toolbar of the viewer *)

Module Toolbar.

Import Store Viewer.

(** [disabled={historyIndex <= 0}] on the undo button. *)
Definition undoDisabled (s : AppState) : bool := historyIndex s <=? 0.

(** [disabled={historyIndex >= history.length - 1}] on the redo button. *)
Definition redoDisabled (s : AppState) : bool :=
  historyIndex s >=? Js.len (history s) - 1.

(** A store action run from the viewer, such as [onClick={undo}]. *)
Definition withStore (f : AppState → AppState) (v : Viewer) : Viewer :=
  mkViewer (canvas v) (imgObj v) (offscreen v) (selectionCanvas v)
    (isDragging v) (f (store v)).

End Toolbar.

(** ** The effects of the viewer that load images *)

Module Effects.

Import Store Viewer.

Section WithDecoder.

(** [img.src = src] followed by [img.onload]: the pixels of the decoded
    image, or [None] when it does not decode and [onload] never runs. The
    images are taken to have the size of the canvas they are drawn on. *)
Variable decode : string → option (list Z).

(** "Initialize": the original becomes [imgObj], the offscreen canvas gets
    a copy of it and the selection canvas is created blank, of that size. *)
Definition loadOriginal (v : Viewer) : Viewer :=
  match originalImage (store v) with
  | Some src =>
      if Js.truthy (Some src) then
        match decode src with
        | Some img =>
            mkViewer (canvas v) (Some img) (Some img)
              (Some (replicate (length img) 0)) (isDragging v) (store v)
        | None => v
        end
      else v
  | None => v
  end.

(** [ctx.clearRect(...); ctx.drawImage(img, 0, 0)] on the offscreen canvas,
    in [img.onload]. *)
Definition drawDecoded (src : string) (v : Viewer) : Viewer :=
  match decode src, offscreen v with
  | Some img, Some _ =>
      mkViewer (canvas v) (imgObj v) (Some img) (selectionCanvas v)
        (isDragging v) (store v)
  | _, _ => v
  end.

(** "Sync Offscreen Canvas with History", run when [history] or
    [historyIndex] changed. *)
Definition syncHistory (v : Viewer) : Viewer :=
  let s := store v in
  if (Js.len (history s) >? 0) && (historyIndex s >=? 0)
     && (historyIndex s <? Js.len (history s))
  then match Js.index (history s) (historyIndex s) with
       | Some imgSrc => drawDecoded imgSrc v
       | None => v
       end
  else v.

(** "Update offscreen canvas when processed image arrives", run when
    [processedImage] or [imgObj] changed. *)
Definition syncProcessed (v : Viewer) : Viewer :=
  if Js.truthy (processedImage (store v))
     && bool_decide (is_Some (imgObj v))
  then match processedImage (store v) with
       | Some src => drawDecoded src v
       | None => v
       end
  else v.

End WithDecoder.

End Effects.

(** ** Mouse gestures of the viewer *)

Module Gesture.

Import Store Viewer.

Record MouseEvent := mkMouse {
  button : Z; buttons : Z; altKey : bool; clientX : Z; clientY : Z
}.

(** What the page layout decides when an event arrives: the rectangle
    [canvas.getBoundingClientRect()] and the size of the canvas. *)
Record Layout := mkLayout {
  rectLeft : Q; rectTop : Q; rectWidth : Q; rectHeight : Q;
  canvasWidth : Q; canvasHeight : Q
}.

(** The viewer with the rest of its React state. *)
Record Pointer := mkPointer {
  view : Viewer;
  lastMousePos : Z * Z;
  cursorPos : option (Z * Z)
}.

Definition setIsDragging (b : bool) (v : Viewer) : Viewer :=
  mkViewer (canvas v) (imgObj v) (offscreen v) (selectionCanvas v) b (store v).

Section WithCanvas.

Variable toDataURL : list Z → string.

(** [ctx.beginPath(); ctx.arc(x, y, radius, 0, 2π); ctx.fillStyle = style;
    ctx.fill()] on a bitmap: the rasteriser of the browser. *)
Variable fillDisc : Q → Q → Q → string → list Z → list Z.

Definition paintSelection (l : Layout) (e : MouseEvent) (v : Viewer) : Viewer :=
  match selectionCanvas v, canvas v, imgObj v with
  | Some sc, true, Some _ =>
      let scaleX := (canvasWidth l / rectWidth l)%Q in
      let scaleY := (canvasHeight l / rectHeight l)%Q in
      let x := ((inject_Z (clientX e) - rectLeft l) * scaleX)%Q in
      let y := ((inject_Z (clientY e) - rectTop l) * scaleY)%Q in
      let style :=
        match brushMode (store v) with
        | erase => "#ef4444"
        | restore => "#22c55e"
        end in
      mkViewer (canvas v) (imgObj v) (offscreen v)
        (Some (fillDisc x y (inject_Z (brushSize (store v)) / 2)%Q style sc))
        (isDragging v) (store v)
  | _, _, _ => v
  end.

Definition handleMouseDown (l : Layout) (e : MouseEvent) (p : Pointer)
    : Pointer :=
  if (button e =? 1) || ((button e =? 0) && altKey e) then
    mkPointer (setIsDragging true (view p)) (clientX e, clientY e)
      (cursorPos p)
  else if button e =? 0 then
    mkPointer (setIsDragging true (paintSelection l e (view p)))
      (lastMousePos p) (cursorPos p)
  else p.

Definition handleMouseMove (l : Layout) (e : MouseEvent) (p : Pointer)
    : Pointer :=
  let cursor := Some (clientX e, clientY e) in
  if negb (isDragging (view p)) then
    mkPointer (view p) (lastMousePos p) cursor
  else if (buttons e =? 4) || ((buttons e =? 1) && altKey e) then
    let dx := clientX e - fst (lastMousePos p) in
    let dy := clientY e - snd (lastMousePos p) in
    let s := store (view p) in
    let newPan := ((fst (pan s) + inject_Z dx)%Q, (snd (pan s) + inject_Z dy)%Q) in
    mkPointer (Toolbar.withStore (setPan newPan) (view p))
      (clientX e, clientY e) cursor
  else if buttons e =? 1 then
    mkPointer (paintSelection l e (view p)) (lastMousePos p) cursor
  else mkPointer (view p) (lastMousePos p) cursor.

(** [onMouseUp] and [onMouseLeave]. *)
Definition handleMouseUp (p : Pointer) : Pointer :=
  mkPointer (Viewer.handleMouseUp toDataURL (view p)) (lastMousePos p)
    (cursorPos p).

(** The events of a gesture, each with the layout it meets. *)
Inductive Event :=
| Down (l : Layout) (e : MouseEvent)
| Move (l : Layout) (e : MouseEvent)
| Up.

Definition handle (p : Pointer) (ev : Event) : Pointer :=
  match ev with
  | Down l e => handleMouseDown l e p
  | Move l e => handleMouseMove l e p
  | Up => handleMouseUp p
  end.

End WithCanvas.

(** The press starts a pan: middle button, or left button with Alt. *)
Definition panPress (e : MouseEvent) : bool :=
  (button e =? 1) || ((button e =? 0) && altKey e).

(** The move continues a pan. *)
Definition panMove (e : MouseEvent) : bool :=
  (buttons e =? 4) || ((buttons e =? 1) && altKey e).

(** The press and the moves of a plain left-button stroke. *)
Definition paintPress (e : MouseEvent) : bool :=
  (button e =? 0) && negb (altKey e).

Definition paintMove (e : MouseEvent) : bool :=
  (buttons e =? 1) && negb (altKey e).

End Gesture.

(** ** A session of the viewer: events, effects and store actions *)

Module Session.

Import Store Viewer Gesture.

Inductive Step :=
| Mouse (ev : Event)
| LoadOriginal
| SyncHistory
| SyncProcessed
| Dispatch (a : Action).

Definition onView (f : Viewer → Viewer) (p : Pointer) : Pointer :=
  mkPointer (f (view p)) (lastMousePos p) (cursorPos p).

Section WithBrowser.

Variable toDataURL : list Z → string.
Variable fillDisc : Q → Q → Q → string → list Z → list Z.
Variable decode : string → option (list Z).

Definition step (p : Pointer) (st : Step) : Pointer :=
  match st with
  | Mouse ev => Gesture.handle toDataURL fillDisc p ev
  | LoadOriginal => onView (Effects.loadOriginal decode) p
  | SyncHistory => onView (Effects.syncHistory decode) p
  | SyncProcessed => onView (Effects.syncProcessed decode) p
  | Dispatch a => onView (Toolbar.withStore (λ s, Store.step s a)) p
  end.

Definition run (sts : list Step) (p : Pointer) : Pointer := foldl step p sts.

End WithBrowser.

(** The viewer as it is mounted: no image yet, no drag, the initial store. *)
Definition start : Pointer :=
  mkPointer (mkViewer true None None None false Store.initial) (0, 0) None.

End Session.

(** ** More vocabulary *)

Module Vocabulary.

Import Store Viewer Spec.

(** The state is the one its history index describes: both images are the
    entry under the index. *)
Definition shown (s : AppState) : Prop :=
  processedImage s = maskImage s ∧ maskImage s = active s.

(** The actions the components issue: [setMaskImage] has no caller, and
    [setProcessedImage] is called with the URL of a blob, which is not
    empty. *)
Definition issued (a : Action) : Prop :=
  match a with
  | SetMaskImage _ => False
  | SetProcessedImage image => Js.truthy image = true
  | _ => True
  end.

(** The last [n] elements of a list. *)
Definition lastN {A} (n : nat) (l : list A) : list A :=
  drop (length l - n) l.

(** Some [drawImage] of the list draws from [src]. *)
Definition draws (src : Canvas.Source) (frame : list Canvas.Op) : Prop :=
  ∃ st, Canvas.DrawImage src st ∈ frame.

(** No pixel of the selection canvas, if there is one, is marked. *)
Definition unmarked (v : Viewer) : Prop :=
  ∀ sel k, selectionCanvas v = Some sel → ¬ marked sel k.

(** The selection canvas comes with the offscreen canvas and the image. *)
Definition mounted (v : Viewer) : Prop :=
  is_Some (selectionCanvas v) → is_Some (offscreen v) ∧ is_Some (imgObj v).

(** The three canvases hold rasters of one size. *)
Definition aligned (v : Viewer) : Prop :=
  ∀ orig ed sel,
    imgObj v = Some orig → offscreen v = Some ed →
    selectionCanvas v = Some sel →
    length ed = length orig ∧ length sel = length orig.

(** What a session keeps: the selection canvas exists only with the other
    two, and it is marked only in a drag that can resolve it. *)
Definition quiet (p : Gesture.Pointer) : Prop :=
  mounted (Gesture.view p)
  ∧ (unmarked (Gesture.view p)
     ∨ (canvas (Gesture.view p) = true ∧ isDragging (Gesture.view p) = true)).

(** Where the pointer is at an event. *)
Definition position (e : Gesture.MouseEvent) : Z * Z :=
  (Gesture.clientX e, Gesture.clientY e).

(** Every raster the viewer holds has [n] bytes. *)
Definition sized (n : nat) (v : Viewer) : Prop :=
  (∀ orig, imgObj v = Some orig → length orig = n)
  ∧ (∀ ed, offscreen v = Some ed → length ed = n)
  ∧ (∀ sel, selectionCanvas v = Some sel → length sel = n).

(** The two image-loading effects that follow a change of the history, in
    one order or the other. *)
Definition settle (decode : string → option (list Z)) (historyFirst : bool)
    (v : Viewer) : Viewer :=
  if historyFirst
  then Effects.syncProcessed decode (Effects.syncHistory decode v)
  else Effects.syncHistory decode (Effects.syncProcessed decode v).

End Vocabulary.

(** * Proof tools *)

(** Turn boolean comparisons on [Z] in the context into propositions. *)
Ltac zbool :=
  repeat match goal with
  | H : (_ >? _) = true |- _ => rewrite Z.gtb_ltb in H; apply Z.ltb_lt in H
  | H : (_ >? _) = false |- _ => rewrite Z.gtb_ltb in H; apply Z.ltb_ge in H
  | H : (_ <? _) = true |- _ => apply Z.ltb_lt in H
  | H : (_ <? _) = false |- _ => apply Z.ltb_ge in H
  | H : (_ =? _) = true |- _ => apply Z.eqb_eq in H
  | H : (_ =? _) = false |- _ => apply Z.eqb_neq in H
  end.

(** Read through the writes of the second loop. *)
Ltac through_inserts :=
  repeat first
    [ rewrite list_lookup_insert_ne by lia
    | rewrite list_lookup_insert_eq by (rewrite ?length_insert; lia) ].

(** * Properties *)

(** ** The history *)

Section History.

Import Store Spec.

Implicit Types (s : AppState) (m : string).

Lemma slice0_take {A} (arr : list A) (e : Z) :
  0 ≤ e → Js.slice0 arr e = take (Z.to_nat e) arr.
Proof.
  intros He. unfold Js.slice0.
  destruct (e <? 0) eqn:E; [zbool; lia | done].
Qed.

Lemma slice0_length {A} (arr : list A) (e : Z) :
  (length (Js.slice0 arr e) ≤ length arr)%nat.
Proof. unfold Js.slice0. destruct (e <? 0); rewrite length_take; lia. Qed.

(** The three cases of [addToHistory] on the history and index fields. *)
Lemma addToHistory_fields m s :
  let p := Js.slice0 (history s) (historyIndex s + 1) in
  (history (addToHistory m s) =
     if Js.len (p ++ [m]) >? 10 then drop 1 (p ++ [m]) else p ++ [m])
  ∧ historyIndex (addToHistory m s) = Js.len (history (addToHistory m s)) - 1
  ∧ maskImage (addToHistory m s) = Some m
  ∧ processedImage (addToHistory m s) = Some m.
Proof. done. Qed.

Lemma addToHistory_last m s :
  ∃ q, history (addToHistory m s) = q ++ [m].
Proof.
  destruct (addToHistory_fields m s) as (Hh & _). rewrite Hh.
  set (p := Js.slice0 _ _). destruct (Js.len (p ++ [m]) >? 10) eqn:E.
  - destruct p as [|x p]; [done|]. by exists p.
  - by exists p.
Qed.

Lemma addToHistory_active m s : active (addToHistory m s) = Some m.
Proof.
  destruct (addToHistory_last m s) as [q Hq].
  destruct (addToHistory_fields m s) as (_ & Hi & _).
  unfold active, Js.index. rewrite Hi, Hq. unfold Js.len.
  rewrite length_app. simpl.
  destruct (_ <? 0) eqn:E; [zbool; lia|].
  replace (Z.to_nat _) with (length q) by lia.
  by rewrite lookup_app_r, Nat.sub_diag.
Qed.

Lemma inv_initial : historyInv initial.
Proof. by left. Qed.

Lemma inv_addToHistory m s : historyInv s → historyInv (addToHistory m s).
Proof.
  intros Hs. right.
  destruct (addToHistory_fields m s) as (Hh & Hi & _).
  destruct (addToHistory_last m s) as [q Hq].
  unfold indexValid. rewrite Hi. split.
  { rewrite Hq. unfold Js.len. rewrite length_app. simpl. lia. }
  rewrite Hh. clear Hh Hi Hq.
  assert (Js.len (Js.slice0 (history s) (historyIndex s + 1)) ≤ 10) as Hp.
  { pose proof (slice0_length (history s) (historyIndex s + 1)).
    destruct Hs as [[Hs _]|[_ Hs]]; unfold Js.len in *.
    - rewrite Hs in *. simpl in *. lia.
    - lia. }
  set (p := Js.slice0 _ _) in *. unfold Js.len in *.
  destruct (_ >? 10) eqn:E.
  - rewrite length_drop, length_app in *. simpl in *. lia.
  - zbool. lia.
Qed.

Lemma inv_undo s : historyInv s → historyInv (undo s).
Proof.
  unfold undo. destruct (historyIndex s >? 0) eqn:E; [|done].
  zbool.
  intros [[_ Hs]|[Hs Hl]]; [lia|]. right.
  unfold indexValid in *. simpl. lia.
Qed.

Lemma inv_redo s : historyInv s → historyInv (redo s).
Proof.
  unfold redo. destruct (historyIndex s <? _) eqn:E; [|done].
  zbool.
  intros [[Hs Hi]|[Hs Hl]].
  - rewrite Hs in E. unfold Js.len in E. simpl in E. lia.
  - right. unfold indexValid in *. simpl. lia.
Qed.

Lemma inv_step s a : historyInv s → historyInv (step s a).
Proof.
  destruct a; simpl; auto using inv_addToHistory, inv_undo, inv_redo;
    try (by left).
  intros Hs. unfold setProcessedImage.
  destruct (Js.truthy image); [|done].
  destruct image; [|done]. right. unfold indexValid, Js.len. simpl. lia.
Qed.

Lemma inv_run acts s : historyInv s → historyInv (run acts s).
Proof.
  revert s. induction acts as [|a acts IH]; intros s Hs; [done|].
  apply IH, inv_step, Hs.
Qed.

(** What a commit does to a history whose index points at an entry. *)
Lemma addToHistory_valid m s :
  indexValid s →
  let p := take (Z.to_nat (historyIndex s + 1)) (history s) ++ [m] in
  Js.len p = historyIndex s + 2
  ∧ history (addToHistory m s) = (if Js.len p >? 10 then drop 1 p else p)
  ∧ p !! Z.to_nat (historyIndex s) = history s !! Z.to_nat (historyIndex s).
Proof.
  intros [H0 Hl]. unfold Js.len in *. cbv zeta. repeat split.
  - rewrite length_app, length_take. simpl. lia.
  - destruct (addToHistory_fields m s) as (Hh & _).
    by rewrite Hh, slice0_take by lia.
  - rewrite lookup_app_l by (rewrite length_take; lia).
    apply lookup_take_lt. lia.
Qed.

Lemma index_nonneg {A} (arr : list A) (i : Z) :
  0 ≤ i → Js.index arr i = arr !! Z.to_nat i.
Proof. intros Hi. unfold Js.index. destruct (i <? 0) eqn:E; [zbool; lia|done]. Qed.

(** Commit, then undo: the index is back on the entry it was on. *)
Lemma commit_undo_valid m s :
  indexValid s →
  let s' := undo (addToHistory m s) in
  maskImage s' = active s ∧ active s' = active s.
Proof.
  intros Hv. pose proof Hv as [H0 Hl].
  destruct (addToHistory_valid m s Hv) as (Hlen & Hh & Hlk).
  destruct (addToHistory_fields m s) as (_ & Hi & _).
  set (p := take _ _ ++ [m]) in *.
  cbv zeta. destruct (addToHistory m s) as [o pr mk ip pp er bs bm z pn h i].
  simpl in Hh, Hi. subst h i. unfold undo, active. cbn [historyIndex history].
  destruct (Js.len p >? 10) eqn:E; zbool.
  - assert (Js.len (drop 1 p) = historyIndex s + 1) as Hd.
    { unfold Js.len in *. rewrite length_drop. lia. }
    rewrite Hd. destruct (_ >? 0) eqn:E2; zbool; [|lia].
    cbn [maskImage historyIndex history set_history set_images].
    rewrite !index_nonneg by lia.
    rewrite lookup_drop, <- Hlk.
    split; f_equal; lia.
  - rewrite Hlen. destruct (_ >? 0) eqn:E2; zbool; [|lia].
    cbn [maskImage historyIndex history set_history set_images].
    rewrite !index_nonneg by lia.
    rewrite <- Hlk. split; f_equal; lia.
Qed.

(** After a commit, undo then redo changes nothing. *)
Lemma undo_redo_after_commit m s :
  redo (undo (addToHistory m s)) = addToHistory m s.
Proof.
  pose proof (addToHistory_active m s) as Ha.
  destruct (addToHistory_fields m s) as (_ & Hi & Hm & Hp).
  destruct (addToHistory_last m s) as [q Hq].
  destruct (addToHistory m s) as [o pr mk ip pp er bs bm z pn h i] eqn:Es.
  simpl in *. subst mk pr.
  assert (0 ≤ i) as Hi0.
  { subst i h. unfold Js.len. rewrite length_app. simpl. lia. }
  unfold undo. simpl. destruct (i >? 0) eqn:E; zbool.
  - unfold redo. simpl.
    destruct (_ <? _) eqn:E2; zbool; [|lia].
    replace (i - 1 + 1) with i by lia.
    unfold active in Ha. simpl in Ha. by rewrite Ha.
  - unfold redo. simpl. destruct (_ <? _) eqn:E2; zbool; [lia|done].
Qed.

(** Right after a commit there is nothing to redo. *)
Lemma redo_after_commit m s : redo (addToHistory m s) = addToHistory m s.
Proof.
  destruct (addToHistory_fields m s) as (_ & Hi & _).
  unfold redo. rewrite Hi.
  destruct (_ <? _) eqn:E; zbool; [lia|done].
Qed.

(** Commits made at the end of a history that has room are appended. *)
Lemma run_commits ms : ∀ s,
  history s ≠ [] →
  historyIndex s = Js.len (history s) - 1 →
  (length (history s) + length ms ≤ 10)%nat →
  let s' := run (AddToHistory <$> ms) s in
  history s' = history s ++ ms
  ∧ historyIndex s' = Js.len (history s') - 1
  ∧ (ms = [] ∨ maskImage s' = last ms).
Proof.
  induction ms as [|m ms IH]; intros s Hne Hi Hl; cbv zeta.
  { simpl. rewrite app_nil_r. auto. }
  change (run (AddToHistory <$> m :: ms) s)
    with (run (AddToHistory <$> ms) (addToHistory m s)).
  simpl in Hl.
  assert (indexValid s) as Hv.
  { unfold indexValid, Js.len in *. destruct (history s); [done|].
    simpl in *. lia. }
  destruct (addToHistory_valid m s Hv) as (Hlen & Hh & _).
  destruct (addToHistory_fields m s) as (_ & Hi' & Hm & _).
  rewrite Hi, Z.sub_add in Hh, Hlen. unfold Js.len in Hh, Hlen.
  rewrite Nat2Z.id, firstn_all in Hh.
  destruct (_ >? 10) eqn:E; zbool;
    [rewrite length_app in E; simpl in E; lia|].
  destruct (IH (addToHistory m s)) as (H1 & H2 & H3).
  - rewrite Hh. by destruct (history s).
  - done.
  - rewrite Hh, length_app. simpl. lia.
  - rewrite Hh, <- app_assoc in H1. simpl in H1.
    split; [done|]. split; [done|].
    right. destruct H3 as [->|H3]; [done|].
    rewrite H3. by destruct ms.
Qed.

(** Undo keeps the mask image on the entry under the index. *)
Lemma undo_coherent s :
  indexValid s → coherent s →
  indexValid (undo s) ∧ coherent (undo s)
  ∧ history (undo s) = history s
  ∧ historyIndex (undo s) = Z.max (historyIndex s - 1) 0.
Proof.
  intros [H0 Hl] Hc. unfold undo.
  destruct (_ >? 0) eqn:E; zbool.
  - unfold indexValid, coherent, active. simpl. repeat split; lia.
  - repeat split; try done. lia.
Qed.

Lemma iter_undo n : ∀ s,
  indexValid s → coherent s →
  let s' := Nat.iter n undo s in
  indexValid s' ∧ coherent s' ∧ history s' = history s
  ∧ historyIndex s' = Z.max (historyIndex s - Z.of_nat n) 0.
Proof.
  induction n as [|n IH]; intros s Hv Hc; cbv zeta.
  { simpl. destruct Hv. repeat split; try done. lia. }
  rewrite Nat.iter_succ.
  destruct (IH s Hv Hc) as (Hv' & Hc' & Hh & Hi).
  destruct (undo_coherent _ Hv' Hc') as (Hv2 & Hc2 & Hh2 & Hi2).
  repeat split; try done; try apply Hv2; [congruence|lia].
Qed.

End History.

Section HistoryClaims.

Import Store Spec.

(** C2. After every run of store actions from the initial state (commit,
    undo and redo among them) the history holds at most 10 entries and,
    when it is not empty, the active index points at one of them. A
    further commit leaves the index on the last entry, which is the new
    snapshot; made on a full history whose last entry is active, it drops
    the oldest entry, and made below depth 10 it only cuts after the
    active entry and appends. *)
Theorem history_bounded_index_valid (acts : list Action) :
  let s := run acts initial in
  (length (history s) ≤ 10)%nat
  ∧ (history s ≠ [] → 0 ≤ historyIndex s < Js.len (history s))
  ∧ ∀ m, let s' := addToHistory m s in
      historyIndex s' = Js.len (history s') - 1
      ∧ active s' = Some m
      ∧ (length (history s) = 10%nat → historyIndex s = 9 →
         history s' = drop 1 (history s) ++ [m])
      ∧ (historyIndex s < 9 →
         history s' = take (Z.to_nat (historyIndex s + 1)) (history s) ++ [m]).
Proof.
  intros s. pose proof (inv_run acts initial inv_initial) as Hinv.
  fold s in Hinv. split; [|split].
  - destruct Hinv as [[-> _]|[_ Hl]]; [simpl; lia|unfold Js.len in Hl; lia].
  - intros Hne. by destruct Hinv as [[? _]|[? _]].
  - intros m s'. destruct (addToHistory_fields m s) as (Hh & Hi & _).
    split; [done|]. split; [apply addToHistory_active|].
    fold s' in Hh. rewrite Hh. clear Hh. split.
    + intros Hl H9. rewrite H9, slice0_take by lia.
      replace (Z.to_nat (9 + 1)) with (length (history s)) by lia.
      rewrite firstn_all. unfold Js.len. rewrite length_app, Hl. simpl.
      by destruct (history s).
    + intros H9.
      assert (-1 ≤ historyIndex s) as Hlo.
      { destruct Hinv as [[_ ->]|[[? _] _]]; lia. }
      rewrite slice0_take by lia. unfold Js.len.
      rewrite length_app, length_take. simpl.
      destruct (_ >? 10) eqn:E; zbool; [lia|done].
Qed.

(** Ten commits fill the history; the eleventh drops the first. *)
Lemma history_bounded_index_valid_witness :
  history (addToHistory "k"
    (run (AddToHistory <$> ["a"; "b"; "c"; "d"; "e"; "f"; "g"; "h"; "i"; "j"])
       initial))
  = ["b"; "c"; "d"; "e"; "f"; "g"; "h"; "i"; "j"; "k"].
Proof.
  pose proof (history_bounded_index_valid
    (AddToHistory <$> ["a"; "b"; "c"; "d"; "e"; "f"; "g"; "h"; "i"; "j"]))
    as (_ & _ & H).
  destruct (H "k") as (_ & _ & H10 & _).
  rewrite H10; reflexivity.
Defined.

(** C3, as stated, fails on a history without entries: the first commit
    cannot be undone. *)
Lemma commit_undo_counterexample :
  ¬ commitUndoRestores "a" (setOriginalImage (Some "o") initial).
Proof. intros [H _]. discriminate H. Qed.

(** C3, amended. When the active index points at an entry, commit followed
    by undo puts the index back on that very entry and makes it the mask
    image; so from a state whose mask image was that entry, both are
    restored. *)
Theorem commit_undo_restores_active (m : string) (s : AppState) :
  indexValid s →
  let s' := undo (addToHistory m s) in
  is_Some (active s)
  ∧ maskImage s' = active s
  ∧ active s' = active s
  ∧ (coherent s → commitUndoRestores m s).
Proof.
  intros Hv s'. destruct (commit_undo_valid m s Hv) as [Hm Ha].
  fold s' in Hm, Ha. split; [|split; [done|split; [done|]]].
  - destruct Hv as [H0 Hl]. unfold active. rewrite index_nonneg by done.
    apply lookup_lt_is_Some. unfold Js.len in Hl. lia.
  - intros Hc. unfold commitUndoRestores. fold s'. by rewrite Hc.
Qed.

Lemma commit_undo_restores_active_witness :
  maskImage (undo (addToHistory "r"
    (run [SetProcessedImage (Some "p"); AddToHistory "q"] initial)))
  = Some "q".
Proof.
  destruct (commit_undo_restores_active "r"
    (run [SetProcessedImage (Some "p"); AddToHistory "q"] initial))
    as (_ & H & _).
  - vm_compute. split; [discriminate|reflexivity].
  - rewrite H. reflexivity.
Defined.

(** C4. From the state a commit leaves, undo followed by redo gives that
    state back, whole. If instead a second commit follows the undo, the
    history becomes the entries up to the active one followed by the new
    snapshot, everything after the active entry being dropped, and redo
    then changes nothing. *)
Theorem undo_redo_roundtrip (acts : list Action) (m : string) :
  let s1 := addToHistory m (run acts initial) in
  redo (undo s1) = s1
  ∧ ∀ m2, let s2 := undo s1 in
      let s3 := addToHistory m2 s2 in
      history s3 = take (Z.to_nat (historyIndex s2 + 1)) (history s2) ++ [m2]
      ∧ redo s3 = s3.
Proof.
  intros s1. split; [apply undo_redo_after_commit|].
  intros m2 s2 s3. split; [|apply redo_after_commit].
  pose proof (inv_addToHistory m _ (inv_run acts initial inv_initial)) as H1.
  fold s1 in H1.
  destruct (addToHistory_fields m (run acts initial)) as (_ & Hi & _).
  fold s1 in Hi.
  destruct (addToHistory_last m (run acts initial)) as [q Hq]. fold s1 in Hq.
  assert (0 ≤ historyIndex s2 ∧ historyIndex s2 + 2 ≤ 10
          ∧ historyIndex s2 < Js.len (history s2)) as (H0 & H10 & Hl).
  { destruct H1 as [[H1 _]|[[_ _] H1]].
    { rewrite Hq in H1. by destruct q. }
    assert (0 ≤ historyIndex s1) as Hi0.
    { rewrite Hi, Hq. unfold Js.len. rewrite length_app. simpl. lia. }
    subst s2. unfold undo. clearbody s1.
    destruct (_ >? 0) eqn:E; zbool;
      cbn [historyIndex history set_history set_images]; lia. }
  destruct (addToHistory_valid m2 s2) as (Hlen & Hh & _); [by split|].
  fold s3 in Hh. rewrite Hh, Hlen. clear Hh.
  destruct (_ >? 10) eqn:E; zbool; [lia|done].
Qed.




End HistoryClaims.

(** ** Brush size, zoom and the keyboard *)

Section Controls.

Import Store Viewer Spec.

Lemma Qltb_lt (x y : Q) : Qltb x y = true ↔ (x < y)%Q.
Proof.
  unfold Qltb. rewrite negb_true_iff, <- not_true_iff_false, Qle_bool_iff.
  split; [apply Qnot_le_lt|apply Qlt_not_le].
Qed.

Lemma Qltb_ge (x y : Q) : Qltb x y = false ↔ (y <= x)%Q.
Proof.
  unfold Qltb. rewrite negb_false_iff. apply Qle_bool_iff.
Qed.

(** [Math.max] and [Math.min] return one of their arguments. *)
Lemma Qmax_lt (x y : Q) : (x < y)%Q → Qmax x y = y.
Proof.
  intros H. unfold Qmax, GenericMinMax.gmax.
  destruct (Qcompare_spec x y); [Lqa.lra|done|Lqa.lra].
Qed.

Lemma Qmax_ge (x y : Q) : (y <= x)%Q → Qmax x y = x.
Proof.
  intros H. unfold Qmax, GenericMinMax.gmax.
  destruct (Qcompare_spec x y); [done|Lqa.lra|done].
Qed.

Lemma Qmin_le (x y : Q) : (x <= y)%Q → Qmin x y = x.
Proof.
  intros H. unfold Qmin, GenericMinMax.gmin.
  destruct (Qcompare_spec x y); [done|done|Lqa.lra].
Qed.

Lemma Qmin_gt (x y : Q) : (y < x)%Q → Qmin x y = y.
Proof.
  intros H. unfold Qmin, GenericMinMax.gmin.
  destruct (Qcompare_spec x y); [Lqa.lra|Lqa.lra|done].
Qed.

(** [Math.min(Math.max(x, lo), hi)] is [x] clamped to [lo, hi]. *)
Lemma min_max_clamp (lo hi x : Q) :
  (lo <= hi)%Q → Qmin (Qmax x lo) hi = clamp lo hi x.
Proof.
  intros Hlh. unfold clamp.
  destruct (Qltb x lo) eqn:E1.
  - apply Qltb_lt in E1. by rewrite Qmax_lt, Qmin_le.
  - apply Qltb_ge in E1. rewrite Qmax_ge by done.
    destruct (Qltb hi x) eqn:E2.
    + apply Qltb_lt in E2. by rewrite Qmin_gt.
    + apply Qltb_ge in E2. by rewrite Qmin_le.
Qed.

Lemma min_max_range (x : Q) :
  (0.1 <= Qmin (Qmax x 0.1) 5)%Q ∧ (Qmin (Qmax x 0.1) 5 <= 5)%Q.
Proof.
  split; [|apply Q.le_min_r].
  apply Q.min_glb; [apply Q.le_max_r|done].
Qed.

Lemma handleWheel_range (e : WheelEvent) (s : AppState) :
  zoomInRange s → zoomInRange (handleWheel e s).
Proof.
  intros Hs. unfold handleWheel.
  destruct (_ || _); [|done]. apply min_max_range.
Qed.

Lemma handleKeyDown_zoom (e : KeyboardEvent) (s : AppState) :
  zoom (handleKeyDown e s) = zoom s.
Proof.
  unfold handleKeyDown, undo, redo.
  repeat (match goal with |- context [if ?b then _ else _] => destruct b end);
    reflexivity.
Qed.

Lemma handle_zoom_range (s : AppState) (ev : UiEvent) :
  zoomInRange s → zoomInRange (handle s ev).
Proof.
  intros Hs. destruct ev as [e|e| | | |]; simpl; try done.
  - unfold zoomInRange. by rewrite handleKeyDown_zoom.
  - by apply handleWheel_range.
  - destruct Hs as [Hlo Hhi]. unfold zoomInRange, clickZoomOut. simpl. split.
    + apply Q.le_max_r.
    + apply Q.max_lub; [Lqa.lra|done].
  - destruct Hs as [Hlo Hhi]. unfold zoomInRange, clickZoomIn. simpl. split.
    + apply Q.min_glb; [Lqa.lra|done].
    + apply Q.le_min_r.
Qed.

Lemma handle_brush_range (s : AppState) (ev : UiEvent) :
  brushSizeInRange s → brushSizeInRange (handle s ev).
Proof.
  unfold brushSizeInRange. intros Hs.
  destruct ev as [e|e| | | |]; simpl; try done; try lia.
  - unfold handleKeyDown, undo, redo.
    repeat (match goal with |- context [if ?b then _ else _] => destruct b end);
      simpl; lia.
  - unfold handleWheel. by destruct (_ || _).
Qed.

Lemma handle_run_range (evs : list UiEvent) : ∀ s,
  brushSizeInRange s → zoomInRange s →
  brushSizeInRange (foldl handle s evs) ∧ zoomInRange (foldl handle s evs).
Proof.
  induction evs as [|ev evs IH]; intros s Hb Hz; [done|].
  simpl. apply IH; [by apply handle_brush_range|by apply handle_zoom_range].
Qed.

End Controls.

Section ControlClaims.

Import Store Viewer Spec.

(** C6, as stated, fails: the setters store what they are given. *)
Lemma setters_clamp_counterexample : ¬ settersClamp 5 0.05 initial.
Proof. intros [[H _] _]. simpl in H. lia. Qed.

(** C6, amended. [setBrushSize] and [setZoom] store their argument as it
    is, clamping nothing and rejecting nothing; the clamping is done by
    their callers (the bracket keys, the wheel, the toolbar buttons), so
    that from a brush size within [10, 200] and a zoom within [0.1, 5.0]
    every run of these handlers stays within both ranges. *)
Theorem clamping_is_done_by_the_handlers
    (s : AppState) (evs : list UiEvent) :
  brushSizeInRange s → zoomInRange s →
  (∀ size z, brushSize (setBrushSize size s) = size
             ∧ zoom (setZoom z s) = z)
  ∧ brushSizeInRange (foldl handle s evs)
  ∧ zoomInRange (foldl handle s evs).
Proof.
  intros Hb Hz. split; [done|]. by apply handle_run_range.
Qed.

Lemma clamping_is_done_by_the_handlers_witness :
  brushSizeInRange
    (foldl handle initial
       [KeyDown (mkKey "[" false false false); ClickZoomOut;
        Wheel (mkWheel 3 true false)]).
Proof.
  destruct (clamping_is_done_by_the_handlers initial
    [KeyDown (mkKey "[" false false false); ClickZoomOut;
     Wheel (mkWheel 3 true false)]) as (_ & H & _).
  - unfold brushSizeInRange. simpl. lia.
  - unfold zoomInRange. simpl. split; discriminate.
  - exact H.
Defined.

(** C8. With Ctrl or Meta held and [key] reported as "z", the handler
    calls redo when Shift is held and undo when it is not. But holding
    Shift makes the Z key report "Z": then no branch is taken, and the
    redo that Ctrl+Shift+Z should trigger does not happen. *)
Theorem shift_z_does_not_redo :
  let e := mkKey "Z" true false true in
  let s := undo (run [SetProcessedImage (Some "p"); AddToHistory "q"] initial) in
  (isZKey e ∧ platformModifier e ∧ shiftKey e = true)
  ∧ handleKeyDown e s = s
  ∧ redo s ≠ s
  ∧ (∀ s', handleKeyDown e s' = s')
  ∧ (∀ ctrl meta shift s',
       handleKeyDown (mkKey "z" ctrl meta shift) s'
       = if ctrl || meta
         then (if shift then redo s' else undo s')
         else s').
Proof.
  intros e s. split; [|split; [|split; [|split]]].
  - split; [by right|]. split; [by left|done].
  - done.
  - intros H. apply (f_equal historyIndex) in H. discriminate H.
  - done.
  - intros ctrl meta shift s'. unfold handleKeyDown. simpl.
    by destruct (ctrl || meta).
Qed.

(** C9. With Ctrl or Meta held, a wheel event stores the old zoom times
    0.9 (deltaY > 0) or times 1.1 (deltaY <= 0), clamped to [0.1, 5.0], so
    the stored zoom is within that range whatever it was before; and any
    sequence of wheel events that starts in range stays in range. *)
Theorem wheel_zoom_clamped (e : WheelEvent) (s : AppState) :
  wheelCtrlKey e = true ∨ wheelMetaKey e = true →
  ((0 < deltaY e)%Q →
     zoom (handleWheel e s) = clamp 0.1 5 (zoom s * 0.9))
  ∧ ((deltaY e <= 0)%Q →
     zoom (handleWheel e s) = clamp 0.1 5 (zoom s * 1.1))
  ∧ zoomInRange (handleWheel e s)
  ∧ ∀ (es : list WheelEvent) (s0 : AppState),
      zoomInRange s0 → zoomInRange (foldl (λ s e, handleWheel e s) s0 es).
Proof.
  intros Hmod.
  assert (wheelCtrlKey e || wheelMetaKey e = true) as Hb.
  { destruct Hmod as [-> | ->]; [done|by rewrite orb_true_r]. }
  split; [|split; [|split]].
  - intros Hd. unfold handleWheel. rewrite Hb.
    apply Qltb_lt in Hd. rewrite Hd. simpl. by apply min_max_clamp.
  - intros Hd. unfold handleWheel. rewrite Hb.
    apply Qltb_ge in Hd. rewrite Hd. simpl. by apply min_max_clamp.
  - unfold handleWheel. rewrite Hb. apply min_max_range.
  - intros es. induction es as [|e' es IH]; intros s0 Hs; [apply Hs|].
    simpl. by apply IH, handleWheel_range.
Qed.

(** Zooming out from 0.1 stays at 0.1. *)
Lemma wheel_zoom_clamped_witness :
  zoom (handleWheel (mkWheel 100 true false) (setZoom 0.1 initial)) = 0.1%Q.
Proof.
  destruct (wheel_zoom_clamped (mkWheel 100 true false)
              (setZoom 0.1 initial)) as (H & _).
  - by left.
  - rewrite H; reflexivity.
Defined.

End ControlClaims.

(** ** Rendering *)

Section RenderClaims.

Import Store Viewer Spec.

(** C7. With the canvases mounted and the context in its default drawing
    state, a call to [render] draws, bottom first: the original image
    exactly when the brush mode is restore, the edited raster at full
    opacity, and the selection at opacity 0.4 exactly when a drag is
    active; the drawing state is left as it was. The ghost, however, is
    drawn with [globalAlpha] 0.3 and the filter [opacity(0.3)] both in
    force, so its alpha is scaled by 0.09 and not by 0.3. *)
Theorem render_layers (v : Viewer) (ctx : Canvas.Ctx) :
  canvas v = true →
  is_Some (imgObj v) → is_Some (offscreen v) → is_Some (selectionCanvas v) →
  Canvas.state ctx = Canvas.defaultState →
  layers (render v ctx)
  = layers ctx
    ++ match brushMode (store v) with
       | restore => [(Canvas.src_original, 0.09%Q)]
       | erase => []
       end
    ++ [(Canvas.src_edited, 1%Q)]
    ++ (if isDragging v then [(Canvas.src_selection, 0.4%Q)] else [])
  ∧ Canvas.state (render v ctx) = Canvas.state ctx
  ∧ Canvas.stack (render v ctx) = Canvas.stack ctx
  ∧ ¬ (0.09 == 0.3)%Q.
Proof.
  intros Hc Hi Ho Hs Hst. unfold render.
  rewrite Hc, !bool_decide_eq_true_2 by done. simpl.
  destruct ctx as [st stk os]. simpl in Hst. subst st.
  split; [|split; [|split]].
  - unfold layers. destruct (brushMode (store v)), (isDragging v); simpl;
      rewrite ?omap_app; simpl; rewrite <- ?app_assoc; reflexivity.
  - by destruct (brushMode (store v)), (isDragging v).
  - by destruct (brushMode (store v)), (isDragging v).
  - discriminate.
Qed.

Lemma render_layers_witness :
  layers (render (mkViewer true (Some []) (Some []) (Some []) false
                    (setBrushMode restore initial)) Canvas.fresh)
  = [(Canvas.src_original, 0.09%Q); (Canvas.src_edited, 1%Q)].
Proof.
  destruct (render_layers
    (mkViewer true (Some []) (Some []) (Some []) false
       (setBrushMode restore initial)) Canvas.fresh) as (H & _);
    [reflexivity|simpl; eauto ..|reflexivity|exact H].
Defined.

End RenderClaims.

(** ** The smart-selection resolver *)

Section Resolver.

Import Store Viewer Spec.

Local Arguments Nat.mul : simpl never.

Lemma pixelStarts_whole (data : list Z) (n : nat) :
  length data = (4 * n)%nat →
  pixelStarts data = (λ k, 4 * k)%nat <$> seq 0 n.
Proof.
  intros Hl. unfold pixelStarts. rewrite Hl.
  replace ((4 * n + 3) / 4)%nat with n; [done|].
  apply Nat.div_unique with 3%nat; lia.
Qed.

Lemma byteAt_lookup (data : list Z) (i : nat) :
  (i < length data)%nat → data !! i = Some (byteAt data i).
Proof.
  intros Hi. unfold byteAt.
  destruct (lookup_lt_is_Some_2 data i Hi) as [x ->]. done.
Qed.

(** *** First loop: the totals are the sums over the marked pixels *)

Lemma accumulate_sums (sel orig : list Z) (ks : list nat) : ∀ t,
  let mk := filter (λ k, 0 < byteAt sel (4 * k + 3)) ks in
  foldl (accumulate sel orig) t ((λ k, 4 * k)%nat <$> ks)
  = mkTotals (totalR t + channelSum orig 0 mk)
             (totalG t + channelSum orig 1 mk)
             (totalB t + channelSum orig 2 mk)
             (count t + Z.of_nat (length mk)).
Proof.
  induction ks as [|k ks IH]; intros t; cbv zeta.
  { destruct t. rewrite filter_nil. unfold channelSum. simpl. f_equal; lia. }
  rewrite fmap_cons, filter_cons. simpl foldl. rewrite IH. clear IH.
  unfold accumulate at 1 2 3 4.
  destruct (byteAt sel (4 * k + 3) >? 0) eqn:E; zbool.
  - rewrite decide_True by done. unfold channelSum. simpl.
    rewrite Nat.add_0_r. unfold fmap. f_equal; lia.
  - rewrite decide_False by lia. done.
Qed.

Lemma totals_sums (sel orig : list Z) (n : nat) :
  length sel = (4 * n)%nat →
  let mk := markedPixels sel n in
  totals sel orig
  = mkTotals (channelSum orig 0 mk) (channelSum orig 1 mk)
             (channelSum orig 2 mk) (Z.of_nat (length mk)).
Proof.
  intros Hl. cbv zeta. unfold totals.
  by rewrite (pixelStarts_whole _ n Hl), accumulate_sums.
Qed.

Lemma no_marked_pixel (sel : list Z) (ks : list nat) :
  (∀ k, byteAt sel (4 * k + 3) = 0) →
  filter (λ k, 0 < byteAt sel (4 * k + 3)) ks = [].
Proof.
  intros Hno. induction ks as [|k ks IH]; [done|].
  rewrite filter_cons_False; [done|]. rewrite Hno. lia.
Qed.

(** *** Second loop: one turn touches one pixel *)

Lemma editPixel_length mode sel orig aR aG aB (m : list Z) (i : nat) :
  length (editPixel mode sel orig aR aG aB m i) = length m.
Proof.
  unfold editPixel. destruct (_ >? 0); [|done].
  destruct (withinTolerance _ _ _ _ _ _); [|done].
  destruct mode; by rewrite !length_insert.
Qed.

Lemma editPixel_other mode sel orig aR aG aB (m : list Z) (k j : nat) :
  k ≠ j →
  rgba (editPixel mode sel orig aR aG aB m (4 * k)) j = rgba m j.
Proof.
  intros Hkj. unfold editPixel, rgba. destruct (_ >? 0); [|done].
  destruct (withinTolerance _ _ _ _ _ _); [|done].
  destruct mode; through_inserts; reflexivity.
Qed.

Lemma editPixel_same mode sel orig aR aG aB (m : list Z) (k : nat) :
  (4 * k + 3 < length m)%nat → length orig = length m →
  rgba (editPixel mode sel orig aR aG aB m (4 * k)) k
  = if chosen sel orig aR aG aB k
    then editedPixel mode orig m k else rgba m k.
Proof.
  intros Hk Hl. unfold editPixel, chosen, rgba, editedPixel.
  destruct (_ >? 0); [|done]. simpl.
  destruct (withinTolerance _ _ _ _ _ _); [|done].
  destruct mode; through_inserts; rewrite ?byteAt_lookup by lia; reflexivity.
Qed.

Lemma editedPixel_ext mode orig (m m' : list Z) (k : nat) :
  rgba m' k = rgba m k → editedPixel mode orig m' k = editedPixel mode orig m k.
Proof.
  unfold rgba, editedPixel. intros H. destruct mode; [|done].
  by injection H as -> -> -> _.
Qed.

Lemma editLoop mode sel orig aR aG aB (ks : list nat) : ∀ m : list Z,
  NoDup ks →
  (∀ k, k ∈ ks → 4 * k + 3 < length m)%nat →
  length orig = length m →
  let m' :=
    foldl (editPixel mode sel orig aR aG aB) m ((λ k, 4 * k)%nat <$> ks) in
  length m' = length m
  ∧ ∀ k, rgba m' k
         = if bool_decide (k ∈ ks) && chosen sel orig aR aG aB k
           then editedPixel mode orig m k else rgba m k.
Proof.
  induction ks as [|k0 ks IH]; intros m Hnd Hin Hl; cbv zeta.
  { split; [done|]. intros k. by rewrite bool_decide_eq_false_2 by apply not_elem_of_nil. }
  apply NoDup_cons in Hnd as [Hk0 Hnd].
  rewrite fmap_cons. simpl foldl.
  set (m1 := editPixel mode sel orig aR aG aB m (4 * k0)).
  assert (length m1 = length m) as Hl1 by apply editPixel_length.
  destruct (IH m1) as [Hlen Hpx]; [done| |congruence|].
  { intros k Hk. rewrite Hl1. apply Hin. by right. }
  split; [congruence|]. intros k. rewrite Hpx.
  destruct (decide (k = k0)) as [->|Hne].
  - rewrite (bool_decide_eq_false_2 (k0 ∈ ks)) by done.
    rewrite (bool_decide_eq_true_2 (k0 ∈ k0 :: ks)) by left.
    simpl. apply editPixel_same; [apply Hin; left|done].
  - assert (rgba m1 k = rgba m k) as Hsame by by apply editPixel_other.
    rewrite Hsame, (editedPixel_ext _ _ _ _ _ Hsame).
    destruct (decide (k ∈ ks)).
    + rewrite !bool_decide_eq_true_2 by (done || by right). done.
    + rewrite !bool_decide_eq_false_2
        by (done || by apply not_elem_of_cons). done.
Qed.

End Resolver.

Section ResolverDistance.

Import Store Viewer Spec.

Lemma Q2R_inject_Z (z : Z) : Q2R (inject_Z z) = IZR z.
Proof. unfold Q2R, inject_Z. simpl. Lra.lra. Qed.

Lemma Q2R_colorDistanceSq (r g b aR aG aB : Q) :
  Q2R (colorDistanceSq r g b aR aG aB)
  = ((Q2R r - Q2R aR) * (Q2R r - Q2R aR)
     + (Q2R g - Q2R aG) * (Q2R g - Q2R aG)
     + (Q2R b - Q2R aB) * (Q2R b - Q2R aB))%R.
Proof.
  unfold colorDistanceSq.
  change (?x ^ 2)%Q with (x * x)%Q.
  by rewrite !Q2R_plus, !Q2R_mult, !Q2R_minus.
Qed.

Lemma sqrt_lt_sqr (x t : R) :
  (0 <= x)%R → (0 <= t)%R → (sqrt x < t)%R ↔ (x < t * t)%R.
Proof.
  intros Hx Ht. rewrite <- (sqrt_square t) at 1 by done. split.
  - apply sqrt_lt_0_alt.
  - intros H. apply sqrt_lt_1_alt. by split.
Qed.

(** The test of the loop is the test the source writes. *)
Lemma withinTolerance_colorDistance (r g b aR aG aB : Q) :
  withinTolerance r g b aR aG aB = true
  ↔ (colorDistance (Q2R r) (Q2R g) (Q2R b) (Q2R aR) (Q2R aG) (Q2R aB)
     < Q2R tolerance)%R.
Proof.
  unfold withinTolerance, colorDistance. rewrite Qltb_lt, sqrt_lt_sqr.
  - replace ((Q2R r - Q2R aR) ^ 2 + (Q2R g - Q2R aG) ^ 2
             + (Q2R b - Q2R aB) ^ 2)%R
      with (Q2R (colorDistanceSq r g b aR aG aB))
      by (rewrite Q2R_colorDistanceSq; Lra.lra).
    rewrite <- Q2R_mult. change (tolerance * tolerance)%Q with (tolerance ^ 2)%Q.
    split; [apply Qlt_Rlt|apply Rlt_Qlt].
  - repeat apply Rplus_le_le_0_compat; apply pow2_ge_0.
  - unfold tolerance, Q2R. simpl. Lra.lra.
Qed.

(** The source's distance is the Euclidean distance. *)
Lemma colorDistance_distance (r1 g1 b1 r2 g2 b2 : R) :
  colorDistance r1 g1 b1 r2 g2 b2 = distance r1 g1 b1 r2 g2 b2.
Proof. unfold colorDistance, distance. f_equal. Lra.lra. Qed.

Lemma withinTolerance_distance (r g b : Z) (aR aG aB : Q) :
  withinTolerance (inject_Z r) (inject_Z g) (inject_Z b) aR aG aB = true
  ↔ (distance (IZR r) (IZR g) (IZR b) (Q2R aR) (Q2R aG) (Q2R aB) < 80)%R.
Proof.
  rewrite withinTolerance_colorDistance, colorDistance_distance.
  rewrite !Q2R_inject_Z.
  replace (Q2R tolerance) with 80%R; [done|].
  unfold tolerance, Q2R. simpl. Lra.lra.
Qed.

End ResolverDistance.

Section ResolverClaims.

Import Store Viewer Spec.

Variable toDataURL : list Z → string.

Local Arguments Nat.mul : simpl never.


(** C5. When no pixel of the selection is marked, [applySmartSelection]
    returns the viewer as it is: the edited raster, the history and the
    active index are untouched, also through [handleMouseUp]. *)
Theorem empty_selection_is_a_noop (v : Viewer) :
  (∀ sel k, selectionCanvas v = Some sel → byteAt sel (4 * k + 3) = 0) →
  applySmartSelection toDataURL v = v
  ∧ offscreen (handleMouseUp toDataURL v) = offscreen v
  ∧ store (handleMouseUp toDataURL v) = store v.
Proof.
  intros Hno.
  assert (applySmartSelection toDataURL v = v) as Hsame.
  { unfold applySmartSelection.
    destruct (offscreen v) as [ed|]; [|done].
    destruct (selectionCanvas v) as [sel|] eqn:Hs; [|done].
    destruct (canvas v); [|done].
    destruct (imgObj v) as [orig|]; [|done].
    unfold totals, pixelStarts. rewrite accumulate_sums.
    cbn [count].
    by rewrite no_marked_pixel by (intros k; by apply Hno). }
  split; [done|]. unfold handleMouseUp.
  destruct (isDragging v); by rewrite ?Hsame.
Qed.

End ResolverClaims.

Section ResolverWitnesses.

Import Store Viewer Spec.


Lemma empty_selection_is_a_noop_witness :
  applySmartSelection (λ _, "data:image/png")
    (mkViewer true (Some [10; 10; 10; 255]) (Some [1; 1; 1; 255])
       (Some [0; 0; 0; 0]) true initial)
  = mkViewer true (Some [10; 10; 10; 255]) (Some [1; 1; 1; 255])
      (Some [0; 0; 0; 0]) true initial.
Proof.
  apply (empty_selection_is_a_noop (λ _, "data:image/png")).
  intros sel k [= <-]. destruct k; [reflexivity|].
  unfold byteAt. rewrite lookup_ge_None_2 by (simpl; lia). reflexivity.
Defined.

End ResolverWitnesses.

(** ** Scenarios *)

Section Scenarios.

Import Store Viewer Spec Scenario.

(** Eleven commits: ten entries are kept and the last one is active. *)
Example eleven_commits_depth :
  length (history elevenCommits) = 10%nat ∧ historyIndex elevenCommits = 9
  ∧ maskImage elevenCommits = Some "s11".
Proof. by vm_compute. Qed.

(** Nine undos reach the oldest entry kept, and a tenth changes nothing. *)
Example eleven_commits_undo :
  historyIndex (Nat.iter 9 undo elevenCommits) = 0
  ∧ maskImage (Nat.iter 9 undo elevenCommits) = Some "s2"
  ∧ Nat.iter 10 undo elevenCommits = Nat.iter 9 undo elevenCommits.
Proof. by vm_compute. Qed.

(** Thirty wheel ticks out from zoom 1 end on 0.1. *)
Example zoom_out_stops_at_a_tenth :
  zoom (Nat.iter 30 (handleWheel (mkWheel 1 true false)) initial) = 0.1%Q.
Proof. by vm_compute. Qed.

(** Without Ctrl or Meta the wheel does not zoom. *)
Example wheel_without_modifier :
  handleWheel (mkWheel 1 false false) initial = initial.
Proof. reflexivity. Qed.

Example three_pixels_erase :
  offscreen (applySmartSelection (λ _, "png") (threePixels erase))
  = Some [1; 1; 1; 0; 2; 2; 2; 255; 3; 3; 3; 0].
Proof. by vm_compute. Qed.

Example three_pixels_restore :
  offscreen (applySmartSelection (λ _, "png") (threePixels restore))
  = Some [10; 10; 10; 255; 2; 2; 2; 255; 12; 12; 12; 255].
Proof. by vm_compute. Qed.

Example three_pixels_commit :
  history (store (applySmartSelection (λ _, "png") (threePixels erase)))
  = ["p"; "png"]
  ∧ selectionCanvas (applySmartSelection (λ _, "png") (threePixels erase))
    = Some [0; 0; 0; 0; 0; 0; 0; 0; 0; 0; 0; 0].
Proof. by vm_compute. Qed.

(** A marked pixel far from the mean is left alone: the mean of 0 and 200
    is 100, at distance 100 * sqrt 3 from both. *)
Example far_pixels_untouched :
  offscreen (applySmartSelection (λ _, "png")
    (mkViewer true (Some [0; 0; 0; 255; 200; 200; 200; 255])
       (Some [1; 1; 1; 255; 2; 2; 2; 255])
       (Some [0; 0; 0; 255; 0; 0; 0; 255]) true initial))
  = Some [1; 1; 1; 255; 2; 2; 2; 255].
Proof. by vm_compute. Qed.

End Scenarios.

(** * Further properties *)

(** ** The store *)

Section StoreExtras.

Import Store Spec Toolbar Vocabulary.

Implicit Types (s : AppState) (m : string).

Lemma undo_at_start s : historyIndex s ≤ 0 → undo s = s.
Proof. intros H. unfold undo. destruct (_ >? 0) eqn:E; zbool; [lia|done]. Qed.

Lemma redo_at_end s : Js.len (history s) - 1 ≤ historyIndex s → redo s = s.
Proof. intros H. unfold redo. destruct (_ <? _) eqn:E; zbool; [lia|done]. Qed.

Lemma undo_moves s : 0 < historyIndex s → historyIndex (undo s) = historyIndex s - 1.
Proof. intros H. unfold undo. destruct (_ >? 0) eqn:E; zbool; [done|lia]. Qed.

Lemma redo_moves s :
  historyIndex s < Js.len (history s) - 1 →
  historyIndex (redo s) = historyIndex s + 1.
Proof. intros H. unfold redo. destruct (_ <? _) eqn:E; zbool; [done|lia]. Qed.

(** X1. The undo button is disabled exactly when [undo] would leave the
    store as it is, and the redo button exactly when [redo] would. *)
Theorem buttons_disabled_iff_noop (s : AppState) :
  (undoDisabled s = true ↔ undo s = s)
  ∧ (redoDisabled s = true ↔ redo s = s).
Proof.
  unfold undoDisabled, redoDisabled. split; split.
  - intros H. apply Z.leb_le in H. by apply undo_at_start.
  - intros H. apply Z.leb_le. destruct (Z_le_gt_dec (historyIndex s) 0); [done|].
    apply (f_equal historyIndex) in H. rewrite undo_moves in H; lia.
  - intros H. apply Z.geb_le in H. by apply redo_at_end.
  - intros H. apply Z.geb_le.
    destruct (Z_le_gt_dec (Js.len (history s) - 1) (historyIndex s)); [done|].
    apply (f_equal historyIndex) in H. rewrite redo_moves in H; lia.
Qed.

Lemma undo_shown s : indexValid s → shown s → indexValid (undo s) ∧ shown (undo s).
Proof.
  intros [H0 Hl] [Hp Hm]. unfold undo.
  destruct (_ >? 0) eqn:E; zbool; [|done].
  unfold indexValid, shown, active. simpl. repeat split; lia.
Qed.

Lemma redo_shown s : indexValid s → shown s → indexValid (redo s) ∧ shown (redo s).
Proof.
  intros [H0 Hl] [Hp Hm]. unfold redo.
  destruct (_ <? _) eqn:E; zbool; [|done].
  unfold indexValid, shown, active. simpl. repeat split; lia.
Qed.

Lemma redo_undo_step s :
  indexValid s → shown s → 0 < historyIndex s → redo (undo s) = s.
Proof.
  intros [H0 Hl] [Hp Hm] Hi. destruct s as [o pr mk ip pp er bs bm z pn h i].
  unfold active in Hm. simpl in *. subst pr.
  unfold undo. simpl. destruct (i >? 0) eqn:E; zbool; [|lia].
  unfold redo. simpl. destruct (_ <? _) eqn:E2; zbool; [|lia].
  replace (i - 1 + 1) with i by lia. by rewrite <- Hm.
Qed.

Lemma undo_redo_step s :
  indexValid s → shown s → historyIndex s < Js.len (history s) - 1 →
  undo (redo s) = s.
Proof.
  intros [H0 Hl] [Hp Hm] Hi. destruct s as [o pr mk ip pp er bs bm z pn h i].
  unfold active in Hm. simpl in *. subst pr.
  unfold redo. simpl. destruct (_ <? _) eqn:E; zbool; [|lia].
  unfold undo. simpl. destruct (_ >? 0) eqn:E2; zbool; [|lia].
  replace (i + 1 - 1) with i by lia. by rewrite <- Hm.
Qed.

Lemma iter_undo_index n : ∀ s,
  indexValid s → shown s → (Z.of_nat n ≤ historyIndex s) →
  historyIndex (Nat.iter n undo s) = historyIndex s - Z.of_nat n
  ∧ indexValid (Nat.iter n undo s) ∧ shown (Nat.iter n undo s).
Proof.
  induction n as [|n IH]; intros s Hv Hs Hn.
  { simpl. split; [lia|done]. }
  rewrite Nat.iter_succ. destruct (IH s Hv Hs) as (Hi & Hv' & Hs'); [lia|].
  destruct (undo_shown _ Hv' Hs') as [Hv2 Hs2].
  split; [|done]. rewrite undo_moves; lia.
Qed.

Lemma iter_redo_index n : ∀ s,
  indexValid s → shown s →
  (historyIndex s + Z.of_nat n ≤ Js.len (history s) - 1) →
  historyIndex (Nat.iter n redo s) = historyIndex s + Z.of_nat n
  ∧ history (Nat.iter n redo s) = history s
  ∧ indexValid (Nat.iter n redo s) ∧ shown (Nat.iter n redo s).
Proof.
  induction n as [|n IH]; intros s Hv Hs Hn.
  { simpl. split; [lia|done]. }
  rewrite Nat.iter_succ. destruct (IH s Hv Hs) as (Hi & Hh & Hv' & Hs'); [lia|].
  destruct (redo_shown _ Hv' Hs') as [Hv2 Hs2].
  split; [|split; [|done]].
  - rewrite redo_moves; [lia|]. rewrite Hh. lia.
  - rewrite <- Hh. unfold redo. by destruct (_ <? _).
Qed.

(** X2. When the index points at an entry and both images are that entry,
    [n] undos followed by [n] redos give the state back, whole, as long as
    there are [n] entries before the active one; and [n] redos followed by
    [n] undos do, as long as there are [n] entries after it. *)
Theorem undos_redos_roundtrip (n : nat) (s : AppState) :
  indexValid s → shown s →
  (Z.of_nat n ≤ historyIndex s → Nat.iter n redo (Nat.iter n undo s) = s)
  ∧ (historyIndex s + Z.of_nat n ≤ Js.len (history s) - 1 →
     Nat.iter n undo (Nat.iter n redo s) = s).
Proof.
  revert s. induction n as [|n IH]; intros s Hv Hs; [done|]. split.
  - intros Hn.
    change (Nat.iter (S n) redo ?x) with (redo (Nat.iter n redo x)).
    rewrite (Nat.iter_succ_r n undo).
    destruct (undo_shown s Hv Hs) as [Hv1 Hs1].
    destruct (IH (undo s) Hv1 Hs1) as [IH1 _].
    rewrite IH1 by (rewrite undo_moves; lia).
    apply redo_undo_step; [done|done|lia].
  - intros Hn.
    change (Nat.iter (S n) undo ?x) with (undo (Nat.iter n undo x)).
    rewrite (Nat.iter_succ_r n redo).
    destruct (redo_shown s Hv Hs) as [Hv1 Hs1].
    destruct (IH (redo s) Hv1 Hs1) as [_ IH2].
    assert (history (redo s) = history s) as Hh.
    { unfold redo. by destruct (_ <? _). }
    rewrite IH2 by (rewrite redo_moves, Hh; lia).
    apply undo_redo_step; [done|done|lia].
Qed.

End StoreExtras.

Section StoreRuns.

Import Store Spec Toolbar Vocabulary.

Implicit Types (s : AppState) (m : string).

Lemma shown_step s a : issued a → shown s → shown (step s a).
Proof.
  intros Ha [Hp Hm]. destruct a; simpl in *; try done.
  - unfold setProcessedImage. rewrite Ha. by destruct image.
  - split; [done|]. by rewrite addToHistory_active.
  - unfold undo. by destruct (_ >? 0).
  - unfold redo. by destruct (_ <? _).
Qed.

(** X3. Along every run of the actions the components issue, both
    [processedImage] and [maskImage] are the history entry under the active
    index (and there is none when the history is empty). *)
Theorem images_are_the_active_entry (acts : list Action) :
  Forall issued acts →
  let s := run acts initial in
  processedImage s = active s ∧ maskImage s = active s
  ∧ (history s = [] → maskImage s = None).
Proof.
  intros Hacts s.
  assert (shown s) as [Hp Hm].
  { subst s. generalize initial (conj (eq_refl None) (eq_refl None) : shown initial).
    induction Hacts as [|a acts Ha _ IH]; intros s0 Hs0; [done|].
    simpl. apply IH. by apply shown_step. }
  split; [congruence|]. split; [done|].
  intros Hh. rewrite Hm. unfold active, Js.index. rewrite Hh.
  by destruct (_ <? 0).
Qed.

Lemma images_are_the_active_entry_witness :
  maskImage (run [SetOriginalImage (Some "o"); SetProcessedImage (Some "p");
                  AddToHistory "q"; Undo] initial) = Some "p".
Proof.
  destruct (images_are_the_active_entry
    [SetOriginalImage (Some "o"); SetProcessedImage (Some "p");
     AddToHistory "q"; Undo]) as (_ & H & _).
  - repeat constructor.
  - rewrite H. reflexivity.
Defined.

Lemma commit_at_end m s :
  historyIndex s = Js.len (history s) - 1 → (length (history s) ≤ 10)%nat →
  history (addToHistory m s) = lastN 10 (history s ++ [m])
  ∧ historyIndex (addToHistory m s) = Js.len (history (addToHistory m s)) - 1
  ∧ (length (history (addToHistory m s)) ≤ 10)%nat.
Proof.
  intros Hi Hl. destruct (addToHistory_fields m s) as (Hh & Hi' & _).
  assert (history (addToHistory m s)
          = if Z.of_nat (length (history s) + 1) >? 10
            then drop 1 (history s ++ [m]) else history s ++ [m]) as Hh'.
  { rewrite Hh, Hi, slice0_take by (unfold Js.len; lia).
    unfold Js.len. replace (Z.to_nat _) with (length (history s)) by lia.
    rewrite firstn_all, length_app. done. }
  clear Hh. split; [|split; [done|]]; rewrite Hh'; clear Hh'.
  - unfold lastN. rewrite length_app. simpl length.
    destruct (_ >? 10) eqn:E; zbool.
    + f_equal. lia.
    + by replace (_ - 10)%nat with 0%nat by lia.
  - destruct (_ >? 10) eqn:E; zbool.
    + rewrite length_drop, length_app. simpl. lia.
    + rewrite length_app. simpl. lia.
Qed.

Lemma lastN_app_lastN {A} (n : nat) (l1 l2 : list A) :
  lastN n (lastN n l1 ++ l2) = lastN n (l1 ++ l2).
Proof.
  unfold lastN. rewrite !length_app, length_drop.
  destruct (decide (length l1 ≤ n)%nat) as [Hle|Hgt].
  - replace (length l1 - n)%nat with 0%nat by lia. simpl.
    f_equal. lia.
  - rewrite <- (drop_app_le l1 l2 (length l1 - n)) by lia.
    rewrite drop_drop. f_equal. lia.
Qed.

(** X4. Commits made while the last entry is active keep the latest ten
    snapshots, oldest first: after any number of them the history is the
    last 10 of the old entries followed by the committed snapshots, and the
    last one is active. *)
Theorem history_is_latest_ten (ms : list string) (s : AppState) :
  historyIndex s = Js.len (history s) - 1 →
  (length (history s) ≤ 10)%nat →
  let s' := run (AddToHistory <$> ms) s in
  history s' = lastN 10 (history s ++ ms)
  ∧ historyIndex s' = Js.len (history s') - 1.
Proof.
  revert s. induction ms as [|m ms IH]; intros s Hi Hl; cbv zeta.
  { simpl. rewrite app_nil_r. split; [|done].
    unfold lastN. by replace (_ - 10)%nat with 0%nat by lia. }
  change (run (AddToHistory <$> m :: ms) s)
    with (run (AddToHistory <$> ms) (addToHistory m s)).
  destruct (commit_at_end m s Hi Hl) as (Hh & Hi' & Hl').
  destruct (IH (addToHistory m s) Hi' Hl') as [H1 H2].
  split; [|done].
  rewrite H1, Hh, lastN_app_lastN, <- app_assoc. done.
Qed.

Lemma history_is_latest_ten_witness :
  history (run (AddToHistory <$>
                  ["a"; "b"; "c"; "d"; "e"; "f"; "g"; "h"; "i"; "j"; "k"])
             (setProcessedImage (Some "p") initial))
  = ["b"; "c"; "d"; "e"; "f"; "g"; "h"; "i"; "j"; "k"].
Proof.
  destruct (history_is_latest_ten
    ["a"; "b"; "c"; "d"; "e"; "f"; "g"; "h"; "i"; "j"; "k"]
    (setProcessedImage (Some "p") initial)) as [H _].
  - reflexivity.
  - simpl. lia.
  - rewrite H. reflexivity.
Defined.

End StoreRuns.

(** ** Upload and background removal *)

Section Flow.

Import Store Viewer Spec Toolbar Vocabulary Uploader Removal.

Lemma truthy_Some (x : string) : x ≠ "" → Js.truthy (Some x) = true.
Proof. intros H. unfold Js.truthy. by destruct (String.eqb_spec x ""). Qed.

(** X5. Dropping files starts a session on the first of them and ignores
    the rest; nothing happens when no file is accepted or the read fails.
    When the removal then succeeds, the store holds the one-entry history
    of the result, shown as both images, and is no longer processing,
    whatever store actions ran in between. When it fails right away there
    is no history, no processed image, and the error message is set. While
    there is no original image the removal effect does nothing. *)
Theorem upload_then_removal
    (file url : string) (rest : list File) (between : list Action)
    (s : AppState) :
  file ≠ "" → url ≠ "" →
  let s0 := onDrop (Some file :: rest) s in
  let ok := useBackgroundRemoval between (Fulfilled url) s0 in
  let ko := useBackgroundRemoval [] Rejected s0 in
  (onDrop [] s = s ∧ onDrop (None :: rest) s = s)
  ∧ s0 = onDrop [Some file] s
  ∧ (originalImage s0 = Some file ∧ history s0 = [] ∧ historyIndex s0 = -1
     ∧ processedImage s0 = None ∧ maskImage s0 = None)
  ∧ (history ok = [url] ∧ historyIndex ok = 0
     ∧ processedImage ok = Some url ∧ maskImage ok = Some url
     ∧ isProcessing ok = false)
  ∧ (history ko = [] ∧ historyIndex ko = -1
     ∧ processedImage ko = None ∧ maskImage ko = None
     ∧ error ko = Some failureMessage ∧ isProcessing ko = false
     ∧ undo ko = ko ∧ redo ko = ko)
  ∧ (∀ o t, originalImage t = None ∨ originalImage t = Some "" →
       useBackgroundRemoval between o t = t).
Proof.
  intros Hf Hu s0 ok ko.
  split; [done|]. split; [done|]. split; [done|].
  assert (Js.truthy (originalImage s0) = true) as Ht by by apply truthy_Some.
  split; [|split].
  - subst ok. unfold useBackgroundRemoval. rewrite Ht.
    unfold processEnd, setProcessedImage. rewrite truthy_Some by done. done.
  - subst ko. unfold useBackgroundRemoval. rewrite Ht. done.
  - intros o t [H|H]; unfold useBackgroundRemoval; by rewrite H.
Qed.

Lemma upload_then_removal_witness :
  history (useBackgroundRemoval [AddToHistory "stroke"] (Fulfilled "blob:1")
             (onDrop [Some "data:image/png;base64,AAAA"] initial))
  = ["blob:1"].
Proof.
  destruct (upload_then_removal "data:image/png;base64,AAAA" "blob:1" []
              [AddToHistory "stroke"] initial) as (_ & _ & _ & (H & _) & _ & _);
    [discriminate|discriminate|exact H].
Defined.

End Flow.

(** ** Brush size steps *)

Section BrushSteps.

Import Store Viewer Spec.

Lemma handle_brush_step (s : AppState) (ev : UiEvent) :
  (10 | brushSize s) → (10 | brushSize (Viewer.handle s ev)).
Proof.
  intros [q Hq].
  assert (∀ s', brushSize s' = brushSize s → (10 | brushSize s')) as Hsame.
  { intros s' ->. by exists q. }
  assert ((10 | Z.max (brushSize s - 10) 10)) as Hminus.
  { destruct (Z.max_spec (brushSize s - 10) 10) as [[_ ->]|[_ ->]].
    - by exists 1. - exists (q - 1). lia. }
  assert ((10 | Z.min (brushSize s + 10) 200)) as Hplus.
  { destruct (Z.min_spec (brushSize s + 10) 200) as [[_ ->]|[_ ->]].
    - exists (q + 1). lia. - by exists 20. }
  destruct ev as [e|e| | | |]; simpl; try done; try (by apply Hsame).
  - unfold handleKeyDown, undo, redo.
    repeat (match goal with |- context [if ?b then _ else _] => destruct b end);
      simpl; done || (by apply Hsame).
  - unfold handleWheel. destruct (_ || _); by apply Hsame.
Qed.

(** X6. From the initial store, whatever keys, wheel events and toolbar
    buttons follow, the brush size is a multiple of 10 between 10 and 200.
    The "]" key and the plus button do the same thing, as do "[" and the
    minus button; a step up followed by a step down gives the size back
    unless the size was 200, where the step up does nothing, and the step
    down does nothing at 10. *)
Theorem brush_size_steps (evs : list UiEvent) :
  let s := foldl Viewer.handle initial evs in
  (10 | brushSize s) ∧ 10 ≤ brushSize s ≤ 200
  ∧ handleKeyDown (mkKey "]" false false false) s = clickBrushPlus s
  ∧ handleKeyDown (mkKey "[" false false false) s = clickBrushMinus s
  ∧ (brushSize s < 200 → clickBrushMinus (clickBrushPlus s) = s)
  ∧ (brushSize s = 200 → clickBrushPlus s = s)
  ∧ (brushSize s = 10 → clickBrushMinus s = s).
Proof.
  intros s.
  assert ((10 | brushSize s) ∧ 10 ≤ brushSize s ≤ 200) as [Hd Hr].
  { subst s.
    assert ((10 | brushSize initial) ∧ brushSizeInRange initial) as H0.
    { split; [by exists 5|]. unfold brushSizeInRange. simpl. lia. }
    revert H0. generalize initial.
    induction evs as [|ev evs IH]; intros s0 [Hd Hr]; [done|].
    simpl. apply IH. split; [by apply handle_brush_step|].
    by apply handle_brush_range. }
  split; [done|]. split; [done|]. split; [done|]. split; [done|].
  destruct s as [o pr mk ip pp er bs bm z pn h i]. simpl in *.
  destruct Hd as [q Hq].
  unfold clickBrushMinus, clickBrushPlus, setBrushSize. simpl.
  repeat split; intros H; f_equal; lia.
Qed.

End BrushSteps.

(** ** Rendering, for every drawing state *)

Section RenderExtras.

Import Store Viewer Spec Vocabulary.

Lemma not_draws (src : Canvas.Source) (frame : list Canvas.Op) :
  Forall (λ op, match op with
                | Canvas.DrawImage src' _ => src' ≠ src
                | Canvas.ClearRect => True
                end) frame →
  ¬ draws src frame.
Proof.
  intros Hall [st Hin]. rewrite Forall_forall in Hall.
  by apply Hall in Hin.
Qed.

(** X7. [render] leaves the drawing state and the stack of saved states of
    the context as it found them, whatever they were, so a second call
    draws the same operations again. It draws nothing while the canvas, the
    offscreen canvas or the image is missing, never draws the original in
    erase mode, and never draws the selection outside a drag. *)
Theorem render_is_repeatable (v : Viewer) (ctx : Canvas.Ctx) :
  Canvas.state (render v ctx) = Canvas.state ctx
  ∧ Canvas.stack (render v ctx) = Canvas.stack ctx
  ∧ ∃ frame,
      Canvas.ops (render v ctx) = Canvas.ops ctx ++ frame
      ∧ Canvas.ops (render v (render v ctx)) = Canvas.ops ctx ++ frame ++ frame
      ∧ (canvas v = false ∨ offscreen v = None ∨ imgObj v = None → frame = [])
      ∧ (brushMode (store v) = erase → ¬ draws Canvas.src_original frame)
      ∧ (isDragging v = false → ¬ draws Canvas.src_selection frame).
Proof.
  destruct ctx as [st stk os]. unfold render.
  destruct (canvas v); simpl.
  2: { split; [done|]. split; [done|]. exists []. rewrite !app_nil_r.
       repeat split; try done; intros _; apply not_draws; constructor. }
  destruct (offscreen v) as [ed|]; simpl.
  2: { split; [done|]. split; [done|]. exists []. rewrite !app_nil_r.
       repeat split; try done; intros _; apply not_draws; constructor. }
  destruct (imgObj v) as [orig|]; simpl.
  2: { split; [done|]. split; [done|]. exists []. rewrite !app_nil_r.
       repeat split; try done; intros _; apply not_draws; constructor. }
  destruct (brushMode (store v)), (selectionCanvas v) as [sel|],
    (isDragging v); simpl;
    (split; [done|]); (split; [done|]);
    eexists; (split; [rewrite <- ?app_assoc; reflexivity|]);
    (split; [rewrite <- ?app_assoc; reflexivity|]);
    (split; [by intros [?|[?|?]]|]);
    split; intros H; try discriminate H;
    apply not_draws; repeat constructor; discriminate.
Qed.

End RenderExtras.

(** ** More on the smart-selection resolver *)

Section ResolverExtras.

Import Store Viewer Spec Vocabulary.

Variable toDataURL : list Z → string.

Local Arguments Nat.mul : simpl never.

Lemma editLoop_length mode sel orig aR aG aB (starts : list nat) : ∀ m : list Z,
  length (foldl (editPixel mode sel orig aR aG aB) m starts) = length m.
Proof.
  induction starts as [|i starts IH]; intros m; [done|].
  simpl. by rewrite IH, editPixel_length.
Qed.

Lemma totals_blank (n : nat) (orig : list Z) :
  count (totals (replicate n 0) orig) = 0.
Proof.
  unfold totals, pixelStarts. rewrite accumulate_sums. cbn [count].
  rewrite no_marked_pixel; [done|].
  intros k. unfold byteAt.
  destruct (replicate n 0 !! (4 * k + 3)%nat) as [x|] eqn:E; [|done].
  by apply lookup_replicate in E as [-> _].
Qed.

(** The two ways [applySmartSelection] can go. *)
Lemma applySmartSelection_cases (v : Viewer) :
  applySmartSelection toDataURL v = v
  ∨ ∃ ed sel orig ed',
      offscreen v = Some ed ∧ selectionCanvas v = Some sel
      ∧ imgObj v = Some orig ∧ canvas v = true
      ∧ length ed' = length ed
      ∧ applySmartSelection toDataURL v
        = mkViewer true (Some orig) (Some ed')
            (Some (replicate (length sel) 0)) (isDragging v)
            (addToHistory (toDataURL ed') (store v)).
Proof.
  unfold applySmartSelection.
  destruct (offscreen v) as [ed|]; [|by left].
  destruct (selectionCanvas v) as [sel|]; [|by left].
  destruct (canvas v); [|by left].
  destruct (imgObj v) as [orig|]; [|by left].
  destruct (_ =? 0); [by left|]. right.
  eexists ed, sel, orig, _. do 4 (split; [done|]).
  split; [|reflexivity]. apply editLoop_length.
Qed.

(** X8. Resolving twice is resolving once: the first pass leaves the
    selection blank, so a second [applySmartSelection] finds nothing marked
    and changes neither the raster nor the history. *)
Theorem resolve_is_idempotent (v : Viewer) :
  applySmartSelection toDataURL (applySmartSelection toDataURL v)
  = applySmartSelection toDataURL v.
Proof.
  destruct (applySmartSelection_cases v)
    as [Hsame|(ed & sel & orig & ed' & _ & _ & _ & _ & _ & Hv')].
  { by rewrite !Hsame. }
  rewrite Hv'. unfold applySmartSelection at 1. cbn [offscreen selectionCanvas
    canvas imgObj]. by rewrite totals_blank.
Qed.

(** X9. Whatever the viewer holds, [applySmartSelection] keeps the sizes of
    the edited raster and of the selection, leaves the original, the drag
    flag, the brush, the zoom and the pan alone, and either leaves the store
    as it is or commits exactly one snapshot, that of the new raster. *)
Theorem resolve_keeps_sizes (v : Viewer) :
  let v' := applySmartSelection toDataURL v in
  length <$> offscreen v' = length <$> offscreen v
  ∧ length <$> selectionCanvas v' = length <$> selectionCanvas v
  ∧ imgObj v' = imgObj v ∧ canvas v' = canvas v
  ∧ isDragging v' = isDragging v
  ∧ (store v' = store v
     ∨ ∃ ed', offscreen v' = Some ed'
              ∧ store v' = addToHistory (toDataURL ed') (store v))
  ∧ brushSize (store v') = brushSize (store v)
  ∧ brushMode (store v') = brushMode (store v)
  ∧ zoom (store v') = zoom (store v) ∧ pan (store v') = pan (store v).
Proof.
  intros v'. subst v'.
  destruct (applySmartSelection_cases v)
    as [Hsame|(ed & sel & orig & ed' & Ho & Hs & Hi & Hc & Hl & Hv')].
  { rewrite Hsame. repeat split; try done. by left. }
  rewrite Hv', Ho, Hs, Hi, Hc. simpl. rewrite Hl, length_replicate.
  repeat split; try done. right. by exists ed'.
Qed.

(** What the resolver does to each pixel, by the test of the loop. *)
Lemma resolve_pixels (v : Viewer) (orig ed sel : list Z) (n : nat) :
  canvas v = true → imgObj v = Some orig →
  offscreen v = Some ed → selectionCanvas v = Some sel →
  length orig = (4 * n)%nat → length ed = (4 * n)%nat →
  length sel = (4 * n)%nat →
  (∃ k, (k < n)%nat ∧ marked sel k) →
  let mk := markedPixels sel n in
  ∃ ed',
    applySmartSelection toDataURL v
    = mkViewer true (Some orig) (Some ed') (Some (replicate (4 * n) 0))
        (isDragging v) (addToHistory (toDataURL ed') (store v))
    ∧ length ed' = length ed
    ∧ ∀ k, (k < n)%nat →
        rgba ed' k
        = if chosen sel orig (mean orig 0 mk) (mean orig 1 mk)
               (mean orig 2 mk) k
          then editedPixel (brushMode (store v)) orig ed k else rgba ed k.
Proof.
  intros Hc Hi Ho Hs Hlo Hle Hls (k0 & Hk0 & Hm0) mk.
  unfold applySmartSelection. rewrite Ho, Hs, Hc, Hi.
  rewrite (totals_sums sel orig n Hls). cbn [count totalR totalG totalB].
  fold mk.
  assert (k0 ∈ mk) as Hin.
  { apply list_elem_of_filter. split; [done|]. apply elem_of_seq. lia. }
  destruct (Z.of_nat (length mk) =? 0) eqn:E; zbool.
  { destruct mk; [by apply elem_of_nil in Hin|done]. }
  rewrite (pixelStarts_whole sel n Hls).
  destruct (editLoop (brushMode (store v)) sel orig (mean orig 0 mk)
              (mean orig 1 mk) (mean orig 2 mk) (seq 0 n) ed)
    as [Hlen Hpx].
  { apply NoDup_seq. }
  { intros k Hk. apply elem_of_seq in Hk. lia. }
  { congruence. }
  eexists. split; [by rewrite Hls|]. split; [done|].
  intros k Hk. fold (mean orig 0 mk) (mean orig 1 mk) (mean orig 2 mk).
  rewrite Hpx.
  by rewrite bool_decide_eq_true_2 by (apply elem_of_seq; lia).
Qed.

End ResolverExtras.

Section NearUniform.

Import Store Viewer Spec Vocabulary.

Variable toDataURL : list Z → string.

Local Arguments Nat.mul : simpl never.

(** A value within [d] of every term is within [d] of their mean, here
    multiplied out. *)
Lemma sum_near (f : nat → Z) (x d : Z) (ks : list nat) :
  (∀ j, j ∈ ks → - d ≤ x - f j ≤ d) →
  - (d * Z.of_nat (length ks))
  ≤ Z.of_nat (length ks) * x - foldr Z.add 0 (f <$> ks)
  ≤ d * Z.of_nat (length ks).
Proof.
  induction ks as [|k ks IH]; intros Hall; [simpl; lia|].
  assert (- d ≤ x - f k ≤ d) as Hk by (apply Hall; left).
  assert (∀ j, j ∈ ks → - d ≤ x - f j ≤ d) as Hks.
  { intros j Hj. apply Hall. by right. }
  specialize (IH Hks). rewrite fmap_cons. cbn [foldr length]. lia.
Qed.

Lemma near_mean (orig : list Z) (c : nat) (x d : Z) (ks : list nat) :
  ks ≠ [] →
  (∀ j, j ∈ ks → - d ≤ x - byteAt orig (4 * j + c) ≤ d) →
  (IZR (- d) <= IZR x - Q2R (mean orig c ks) <= IZR d)%R.
Proof.
  intros Hne Hall.
  pose proof (sum_near (λ j, byteAt orig (4 * j + c)) x d ks Hall) as [Hlo Hhi].
  fold (channelSum orig c ks) in Hlo, Hhi.
  unfold mean. set (S := channelSum orig c ks) in *.
  set (N := Z.of_nat (length ks)) in *.
  assert (0 < N) as HN by (subst N; destruct ks; [done|simpl; lia]).
  assert (¬ (inject_Z N == 0)%Q) as HNq.
  { unfold Qeq, inject_Z. simpl. lia. }
  rewrite Q2R_div, !Q2R_inject_Z by done.
  apply IZR_lt in HN. apply IZR_le in Hlo, Hhi.
  rewrite opp_IZR, ?mult_IZR, ?minus_IZR, ?mult_IZR in Hlo.
  rewrite ?minus_IZR, ?mult_IZR in Hhi.
  set (y := (IZR S / IZR N)%R).
  assert (y * IZR N = IZR S)%R as Hy by (subst y; field; Lra.lra).
  rewrite opp_IZR. split; Lra.nra.
Qed.

(** Three differences of at most 46 stay below the tolerance. *)
Lemma distance_within_46 (a b c : R) :
  (-46 <= a <= 46)%R → (-46 <= b <= 46)%R → (-46 <= c <= 46)%R →
  (sqrt (a * a + b * b + c * c) < 80)%R.
Proof.
  intros Ha Hb Hc. apply sqrt_lt_sqr; Lra.nra.
Qed.


End NearUniform.

Section NearUniformWitness.

Import Store Viewer Spec Vocabulary.


End NearUniformWitness.

(** ** Gestures and sessions *)

Section GestureExtras.

Import Store Viewer Spec Vocabulary Gesture Session.

Variable toDataURL : list Z → string.
Variable fillDisc : Q → Q → Q → string → list Z → list Z.
Variable decode : string → option (list Z).

Local Arguments Nat.mul : simpl never.

Lemma applySmartSelection_unmarked (v : Viewer) :
  unmarked v → applySmartSelection toDataURL v = v.
Proof.
  intros Hno. unfold applySmartSelection.
  destruct (offscreen v) as [ed|]; [|done].
  destruct (selectionCanvas v) as [sel|] eqn:Hs; [|done].
  destruct (canvas v); [|done].
  destruct (imgObj v) as [orig|]; [|done].
  unfold totals, pixelStarts. rewrite accumulate_sums. cbn [count].
  assert (filter (λ k, 0 < byteAt sel (4 * k + 3))
            (seq 0 ((length sel + 3) / 4)) = []) as ->; [|done].
  induction (seq 0 ((length sel + 3) / 4)) as [|k ks IH]; [done|].
  rewrite filter_cons_False; [done|]. by apply (Hno sel k).
Qed.

Lemma count_zero_unmarked (sel orig : list Z) :
  count (totals sel orig) = 0 → ∀ k, ¬ marked sel k.
Proof.
  unfold totals, pixelStarts. rewrite accumulate_sums. cbn [count].
  intros Hc k Hm. unfold marked in Hm.
  assert (k < (length sel + 3) / 4)%nat as Hk.
  { destruct (decide (4 * k + 3 < length sel)%nat) as [Hlt|Hge].
    - apply Nat.div_le_lower_bound; lia.
    - unfold byteAt in Hm. rewrite lookup_ge_None_2 in Hm by lia.
      simpl in Hm. lia. }
  assert (k ∈ filter (λ k, 0 < byteAt sel (4 * k + 3))
                (seq 0 ((length sel + 3) / 4))) as Hin.
  { apply list_elem_of_filter. split; [done|]. apply elem_of_seq. lia. }
  destruct (filter _ _); [by apply elem_of_nil in Hin|simpl in Hc; lia].
Qed.

Lemma blank_unmarked (n k : nat) : ¬ marked (replicate n 0) k.
Proof.
  unfold marked, byteAt.
  destruct (replicate n 0 !! (4 * k + 3)%nat) as [x|] eqn:E; simpl; [|lia].
  apply lookup_replicate in E as [-> _]. lia.
Qed.

(** The selection after a release. *)
Lemma handleMouseUp_unmarked (v : Viewer) :
  unmarked v
  ∨ (canvas v = true ∧ is_Some (offscreen v) ∧ is_Some (imgObj v)
     ∧ isDragging v = true) →
  unmarked (Viewer.handleMouseUp toDataURL v).
Proof.
  intros H. unfold Viewer.handleMouseUp.
  destruct (isDragging v) eqn:Hd.
  2: { destruct H as [H|(_ & _ & _ & ?)]; [|done].
       intros sel k Hs. by apply (H sel k). }
  unfold applySmartSelection.
  destruct (offscreen v) as [ed|] eqn:Ho.
  2: { destruct H as [H|(_ & [? ?] & _)]; [|done].
       intros sel k Hs. by apply (H sel k). }
  destruct (selectionCanvas v) as [sel|] eqn:Hs.
  2: { intros sel k Hs'. simpl in Hs'. congruence. }
  destruct (canvas v) eqn:Hc.
  2: { destruct H as [H|(? & _)]; [|done].
       intros sel' k Hs'. simpl in Hs'. apply (H sel' k). congruence. }
  destruct (imgObj v) as [orig|] eqn:Hi.
  2: { destruct H as [H|(_ & _ & [? ?] & _)]; [|done].
       intros sel' k Hs'. simpl in Hs'. apply (H sel' k). congruence. }
  destruct (count (totals sel orig) =? 0) eqn:E; zbool.
  - intros sel' k Hs'. simpl in Hs'. rewrite Hs in Hs'.
    injection Hs' as <-. by apply (count_zero_unmarked sel orig).
  - intros sel' k Hs'. simpl in Hs'. injection Hs' as <-.
    apply blank_unmarked.
Qed.

End GestureExtras.

Section SessionExtras.

Import Store Viewer Spec Vocabulary Gesture Session.

Variable toDataURL : list Z → string.
Variable fillDisc : Q → Q → Q → string → list Z → list Z.
Variable decode : string → option (list Z).

Lemma paintSelection_cases (l : Layout) (e : MouseEvent) (v : Viewer) :
  paintSelection fillDisc l e v = v
  ∨ ∃ sc sc', selectionCanvas v = Some sc ∧ canvas v = true
              ∧ is_Some (imgObj v)
              ∧ paintSelection fillDisc l e v
                = mkViewer (canvas v) (imgObj v) (offscreen v) (Some sc')
                    (isDragging v) (store v).
Proof.
  unfold paintSelection.
  destruct (selectionCanvas v) as [sc|]; [|by left].
  destruct (canvas v); [|by left].
  destruct (imgObj v) as [orig|]; [|by left].
  right. by eexists sc, _.
Qed.

Lemma quiet_paint (l : Layout) (e : MouseEvent) (v : Viewer) (b : bool) :
  mounted v →
  unmarked v ∨ (canvas v = true ∧ b = true) →
  mounted (setIsDragging true (paintSelection fillDisc l e v))
  ∧ (unmarked (setIsDragging true (paintSelection fillDisc l e v))
     ∨ (canvas (setIsDragging true (paintSelection fillDisc l e v)) = true
        ∧ true = true)).
Proof.
  intros Hm Hq.
  destruct (paintSelection_cases l e v)
    as [->|(sc & sc' & Hs & Hc & Hi & ->)].
  - split; [done|]. destruct Hq as [Hu|[Hc _]]; [by left|by right].
  - split; [|by right]. intros _. simpl. apply Hm. by rewrite Hs.
Qed.

Lemma quiet_step (p : Pointer) (st : Step) :
  quiet p → quiet (step toDataURL fillDisc decode p st).
Proof.
  intros [Hm Hq].
  destruct st as [[l e|l e|]| | | |a]; cbn [Session.step Gesture.handle].
  - (* press *)
    unfold handleMouseDown.
    destruct (_ || _).
    { split; [done|]. destruct Hq as [Hu|[Hc _]]; [by left|by right]. }
    destruct (button e =? 0); [|exact (conj Hm Hq)].
    by apply (quiet_paint l e (view p) (isDragging (view p))).
  - (* move *)
    unfold handleMouseMove.
    assert (∀ lm c, quiet (mkPointer (view p) lm c)) as Hsame
      by (intros; exact (conj Hm Hq)).
    assert (∀ f lm c, quiet (mkPointer (Toolbar.withStore f (view p)) lm c))
      as Hstore by (intros; exact (conj Hm Hq)).
    destruct (isDragging (view p)) eqn:Hd; simpl; [|apply Hsame].
    destruct (_ || _); [apply Hstore|].
    destruct (buttons e =? 1); [|apply Hsame]. simpl.
    destruct (paintSelection_cases l e (view p))
      as [->|(sc & sc' & Hs & Hc & Hi & ->)]; [apply Hsame|].
    split; [|by right]. intros _. simpl. apply Hm. by rewrite Hs.
  - (* release *)
    unfold handleMouseUp, quiet. simpl. split.
    + unfold Viewer.handleMouseUp, mounted. simpl.
      destruct (isDragging (view p)); [|exact Hm].
      destruct (applySmartSelection_cases toDataURL (view p))
        as [->|(ed & sel & orig & ed' & _ & _ & _ & _ & _ & ->)]; [exact Hm|].
      simpl. eauto.
    + left. apply handleMouseUp_unmarked.
      destruct Hq as [Hu|[Hc Hd]]; [by left|].
      destruct (selectionCanvas (view p)) as [sel|] eqn:Hs.
      * right. destruct Hm as [Ho Hi]; [by rewrite Hs|]. done.
      * left. intros sel k Hs'. congruence.
  - (* the original is loaded *)
    unfold onView, Effects.loadOriginal.
    destruct (originalImage _) as [src|]; [|exact (conj Hm Hq)].
    destruct (Js.truthy (Some src)); [|exact (conj Hm Hq)].
    destruct (decode src) as [img|]; [|exact (conj Hm Hq)]. split.
    + intros _. simpl. eauto.
    + left. intros sel k [= <-]. apply blank_unmarked.
  - unfold onView, Effects.syncHistory, Effects.drawDecoded.
    destruct (_ && _); [|exact (conj Hm Hq)].
    destruct (Js.index _ _) as [src|]; [|exact (conj Hm Hq)].
    destruct (decode src) as [img|]; [|exact (conj Hm Hq)].
    destruct (offscreen (view p)) as [ed|] eqn:Ho; [|exact (conj Hm Hq)]. split.
    + intros Hs. destruct (Hm Hs) as [_ ?]. eauto.
    + exact Hq.
  - unfold onView, Effects.syncProcessed, Effects.drawDecoded.
    destruct (_ && _); [|exact (conj Hm Hq)].
    destruct (processedImage _) as [src|]; [|exact (conj Hm Hq)].
    destruct (decode src) as [img|]; [|exact (conj Hm Hq)].
    destruct (offscreen (view p)) as [ed|] eqn:Ho; [|exact (conj Hm Hq)]. split.
    + intros Hs. destruct (Hm Hs) as [_ ?]. eauto.
    + exact Hq.
  - exact (conj Hm Hq).
Qed.

Lemma quiet_run (sts : list Step) (p : Pointer) :
  quiet p → quiet (run toDataURL fillDisc decode sts p).
Proof.
  revert p. induction sts as [|st sts IH]; intros p Hp; [done|].
  apply IH, quiet_step, Hp.
Qed.

Lemma quiet_start : quiet start.
Proof. split; [by intros [? ?]|]. left. by intros sel k. Qed.

(** X11. Through every session (mouse events, image loads, store actions,
    in any order) no mark survives a drag: whenever no drag is active, the
    selection canvas has no marked pixel. What a stroke paints is resolved
    at its release, and a release with nothing resolved leaves nothing
    behind for the next stroke. *)
Theorem no_marks_outside_a_drag (sts : list Step) :
  let p := run toDataURL fillDisc decode sts start in
  isDragging (view p) = false →
  unmarked (view p)
  ∧ applySmartSelection toDataURL (view p) = view p.
Proof.
  intros p Hd.
  destruct (quiet_run sts start quiet_start) as [_ [Hu|[_ Hd']]].
  - split; [done|]. by apply applySmartSelection_unmarked.
  - fold p in Hd'. congruence.
Qed.

End SessionExtras.

Section GestureClaims.

Import Store Viewer Spec Vocabulary Gesture.

Variable toDataURL : list Z → string.
Variable fillDisc : Q → Q → Q → string → list Z → list Z.

Lemma setPan_id (s : AppState) : setPan (pan s) s = s.
Proof. by destruct s. Qed.

Lemma paintSelection_keeps (l : Layout) (e : MouseEvent) (v : Viewer) :
  let v' := paintSelection fillDisc l e v in
  offscreen v' = offscreen v ∧ imgObj v' = imgObj v ∧ canvas v' = canvas v
  ∧ store v' = store v ∧ isDragging v' = isDragging v.
Proof.
  cbv zeta.
  destruct (paintSelection_cases fillDisc l e v)
    as [->|(sc & sc' & Hs & Hc & Hi & ->)]; by repeat split.
Qed.

(** What a press or a move can change. *)
Lemma press_or_move_keeps (p : Pointer) (ev : Event) :
  ev ≠ Up →
  let p' := handle toDataURL fillDisc p ev in
  offscreen (view p') = offscreen (view p)
  ∧ imgObj (view p') = imgObj (view p)
  ∧ canvas (view p') = canvas (view p)
  ∧ store (view p') = setPan (pan (store (view p'))) (store (view p))
  ∧ (isDragging (view p) = true → isDragging (view p') = true).
Proof.
  intros Hev. destruct ev as [l e|l e|]; [| |done]; cbv zeta; simpl.
  - unfold handleMouseDown.
    destruct (_ || _); simpl.
    { by rewrite setPan_id. }
    destruct (button e =? 0); simpl; [|by rewrite setPan_id].
    destruct (paintSelection_keeps l e (view p)) as (-> & -> & -> & -> & _).
    by rewrite setPan_id.
  - unfold handleMouseMove.
    destruct (isDragging (view p)) eqn:Hd; simpl; [|by rewrite setPan_id].
    destruct (_ || _); simpl.
    { by rewrite Hd. }
    destruct (buttons e =? 1); simpl; [|by rewrite setPan_id, Hd].
    destruct (paintSelection_keeps l e (view p)) as (-> & -> & -> & -> & ->).
    by rewrite setPan_id.
Qed.

(** X12. Presses and moves never touch the edited raster, the original or
    the history: through any sequence of them the store changes in its pan
    only, and a drag that has started stays active. Edits and commits
    happen at the release alone. *)
Theorem only_a_release_edits (evs : list Event) (p : Pointer) :
  Forall (λ ev, ev ≠ Up) evs →
  let p' := foldl (handle toDataURL fillDisc) p evs in
  offscreen (view p') = offscreen (view p)
  ∧ imgObj (view p') = imgObj (view p)
  ∧ store (view p') = setPan (pan (store (view p'))) (store (view p))
  ∧ history (store (view p')) = history (store (view p))
  ∧ historyIndex (store (view p')) = historyIndex (store (view p))
  ∧ (isDragging (view p) = true → isDragging (view p') = true).
Proof.
  intros Hevs. cbv zeta.
  assert (offscreen (view (foldl (handle toDataURL fillDisc) p evs))
            = offscreen (view p)
          ∧ imgObj (view (foldl (handle toDataURL fillDisc) p evs))
            = imgObj (view p)
          ∧ store (view (foldl (handle toDataURL fillDisc) p evs))
            = setPan (pan (store (view (foldl (handle toDataURL fillDisc) p evs))))
                (store (view p))
          ∧ (isDragging (view p) = true →
             isDragging (view (foldl (handle toDataURL fillDisc) p evs)) = true))
    as (Ho & Hi & Hs & Hd).
  { revert p. induction Hevs as [|ev evs Hev _ IH]; intros p.
    { by rewrite setPan_id. }
    simpl. destruct (IH (handle toDataURL fillDisc p ev)) as (Ho & Hi & Hs & Hd).
    destruct (press_or_move_keeps p ev Hev) as (Ho1 & Hi1 & _ & Hs1 & Hd1).
    rewrite Ho, Hi, Ho1, Hi1. repeat split; [|tauto].
    rewrite Hs at 1. by rewrite Hs1 at 1. }
  repeat split; try done; by rewrite Hs.
Qed.

End GestureClaims.

Section GestureWitnesses.

Import Store Viewer Spec Vocabulary Gesture.

Lemma only_a_release_edits_witness :
  history (store (view
    (foldl (handle (λ _, "png") (λ _ _ _ _ sc, sc))
       (mkPointer (mkViewer true (Some [9; 9; 9; 255]) (Some [1; 1; 1; 255])
                     (Some [0; 0; 0; 0]) false
                     (setProcessedImage (Some "p") initial)) (0, 0) None)
       [Down (mkLayout 0 0 1 1 1 1) (mkMouse 0 1 false 0 0);
        Move (mkLayout 0 0 1 1 1 1) (mkMouse 0 1 false 0 0)])))
  = ["p"].
Proof.
  destruct (only_a_release_edits (λ _, "png") (λ _ _ _ _ sc, sc)
    [Down (mkLayout 0 0 1 1 1 1) (mkMouse 0 1 false 0 0);
     Move (mkLayout 0 0 1 1 1 1) (mkMouse 0 1 false 0 0)]
    (mkPointer (mkViewer true (Some [9; 9; 9; 255]) (Some [1; 1; 1; 255])
                  (Some [0; 0; 0; 0]) false
                  (setProcessedImage (Some "p") initial)) (0, 0) None))
    as (_ & _ & _ & H & _).
  - repeat constructor; discriminate.
  - exact H.
Defined.

End GestureWitnesses.

Section PanGesture.

Import Store Viewer Spec Vocabulary Gesture.

Variable toDataURL : list Z → string.
Variable fillDisc : Q → Q → Q → string → list Z → list Z.

Lemma pan_moves (moves : list (Layout * MouseEvent)) : ∀ q : Pointer,
  isDragging (view q) = true →
  Forall (λ m, panMove m.2 = true) moves →
  let q' := foldl (λ q m, handleMouseMove fillDisc m.1 m.2 q) q moves in
  isDragging (view q') = true
  ∧ selectionCanvas (view q') = selectionCanvas (view q)
  ∧ offscreen (view q') = offscreen (view q)
  ∧ imgObj (view q') = imgObj (view q)
  ∧ canvas (view q') = canvas (view q)
  ∧ store (view q') = setPan (pan (store (view q'))) (store (view q))
  ∧ lastMousePos q' = default (lastMousePos q) (last (position ∘ snd <$> moves))
  ∧ (fst (pan (store (view q')))
     == fst (pan (store (view q)))
        + inject_Z (fst (lastMousePos q') - fst (lastMousePos q)))%Q
  ∧ (snd (pan (store (view q')))
     == snd (pan (store (view q)))
        + inject_Z (snd (lastMousePos q') - snd (lastMousePos q)))%Q.
Proof.
  induction moves as [|[l e] moves IH]; intros q Hd Hall; cbv zeta.
  { simpl. rewrite setPan_id, !Z.sub_diag.
    repeat split; try done; unfold inject_Z; ring. }
  apply Forall_cons in Hall as [He Hall]. simpl in He.
  cbn [foldl fst snd].
  set (q1 := handleMouseMove fillDisc l e q).
  set (pn1 := ((fst (pan (store (view q)))
                + inject_Z (clientX e - fst (lastMousePos q)))%Q,
               (snd (pan (store (view q)))
                + inject_Z (clientY e - snd (lastMousePos q)))%Q)).
  assert (q1 = mkPointer (Toolbar.withStore (setPan pn1) (view q))
                 (clientX e, clientY e) (Some (clientX e, clientY e))) as Hq1.
  { subst q1. unfold handleMouseMove. rewrite Hd. simpl.
    unfold panMove in He. by rewrite He. }
  assert (isDragging (view q1) = true
          ∧ selectionCanvas (view q1) = selectionCanvas (view q)
          ∧ offscreen (view q1) = offscreen (view q)
          ∧ imgObj (view q1) = imgObj (view q)
          ∧ canvas (view q1) = canvas (view q)
          ∧ store (view q1) = setPan pn1 (store (view q))
          ∧ lastMousePos q1 = position e)
    as (A1 & A2 & A3 & A4 & A5 & A6 & A7) by (by rewrite Hq1).
  clearbody q1. clear Hq1.
  destruct (IH q1 A1 Hall) as (Hd' & Hs & Ho & Hi & Hc & Hst & Hl & Hx & Hy).
  set (q' := foldl _ q1 moves) in *. clearbody q'.
  split; [done|]. split; [congruence|]. split; [congruence|].
  split; [congruence|]. split; [congruence|]. split.
  { rewrite Hst at 1. by rewrite A6. }
  assert (lastMousePos q'
          = default (lastMousePos q)
              (last (position ∘ snd <$> (l, e) :: moves))) as Hl'.
  { rewrite Hl, A7, fmap_cons, last_cons. simpl. by destruct (last _). }
  split; [done|].
  rewrite A6, A7 in Hx, Hy. simpl in Hx, Hy.
  rewrite Hx, Hy. unfold Z.sub. rewrite !inject_Z_plus, !inject_Z_opp.
  split; ring.
Qed.

(** X13. A pan gesture (a press with the middle button, or with the left
    button and Alt, then moves that keep that up, then the release) adds to
    the pan the displacement of the pointer from the press to the last
    move, and changes nothing else in the store; with no mark on the
    selection when it starts, it leaves the rasters and the history as
    they were and ends the drag. *)
Theorem pan_gesture_adds_displacement
    (l0 : Layout) (e0 : MouseEvent) (moves : list (Layout * MouseEvent))
    (p : Pointer) :
  panPress e0 = true →
  Forall (λ m, panMove m.2 = true) moves →
  unmarked (view p) →
  let p' :=
    handleMouseUp toDataURL
      (foldl (λ q m, handleMouseMove fillDisc m.1 m.2 q)
         (handleMouseDown fillDisc l0 e0 p) moves) in
  let target := default (position e0) (last (position ∘ snd <$> moves)) in
  (fst (pan (store (view p')))
   == fst (pan (store (view p))) + inject_Z (fst target - clientX e0))%Q
  ∧ (snd (pan (store (view p')))
     == snd (pan (store (view p))) + inject_Z (snd target - clientY e0))%Q
  ∧ store (view p') = setPan (pan (store (view p'))) (store (view p))
  ∧ offscreen (view p') = offscreen (view p)
  ∧ selectionCanvas (view p') = selectionCanvas (view p)
  ∧ isDragging (view p') = false.
Proof.
  intros Hpress Hmoves Hun. cbv zeta.
  set (q := handleMouseDown fillDisc l0 e0 p).
  assert (q = mkPointer (setIsDragging true (view p)) (clientX e0, clientY e0)
                (cursorPos p)) as Hq.
  { subst q. unfold handleMouseDown. unfold panPress in Hpress.
    by rewrite Hpress. }
  destruct (pan_moves moves q) as (Hd & Hs & Ho & Hi & Hc & Hst & Hl & Hx & Hy);
    [by rewrite Hq|done|].
  set (q' := foldl _ q moves) in *.
  assert (unmarked (view q')) as Hun'.
  { intros sel k Hsel. rewrite Hs, Hq in Hsel. by apply (Hun sel k). }
  assert (view (handleMouseUp toDataURL q') = setIsDragging false (view q'))
    as Hup.
  { unfold handleMouseUp, Viewer.handleMouseUp. simpl. rewrite Hd.
    by rewrite applySmartSelection_unmarked. }
  rewrite Hup. simpl. rewrite Hx, Hy, Hl, Ho, Hs.
  rewrite Hst at 1. rewrite Hq. simpl. repeat split; done.
Qed.

End PanGesture.

Section PanGestureWitness.

Import Store Viewer Spec Vocabulary Gesture.

Lemma pan_gesture_adds_displacement_witness :
  Qeq (fst (pan (store (view
     (handleMouseUp (λ _, "png")
        (foldl (λ q m, handleMouseMove (λ _ _ _ _ sc, sc) m.1 m.2 q)
           (handleMouseDown (λ _ _ _ _ sc, sc) (mkLayout 0 0 1 1 1 1)
              (mkMouse 1 4 false 100 50)
              (mkPointer (mkViewer true None None None false initial)
                 (0, 0) None))
           [(mkLayout 0 0 1 1 1 1, mkMouse 0 4 false 110 50);
            (mkLayout 0 0 1 1 1 1, mkMouse 0 4 false 130 45)])))))) 30.
Proof.
  destruct (pan_gesture_adds_displacement (λ _, "png") (λ _ _ _ _ sc, sc)
    (mkLayout 0 0 1 1 1 1) (mkMouse 1 4 false 100 50)
    [(mkLayout 0 0 1 1 1 1, mkMouse 0 4 false 110 50);
     (mkLayout 0 0 1 1 1 1, mkMouse 0 4 false 130 45)]
    (mkPointer (mkViewer true None None None false initial) (0, 0) None))
    as (H & _).
  - reflexivity.
  - repeat constructor.
  - intros sel k Hs. discriminate Hs.
  - rewrite H. reflexivity.
Defined.

End PanGestureWitness.

(** ** Effects: the raster follows the history *)

Section EffectsExtras.

Import Store Viewer Spec Vocabulary Toolbar Effects Gesture Session.

Variable toDataURL : list Z → string.
Variable fillDisc : Q → Q → Q → string → list Z → list Z.
Variable decode : string → option (list Z).

Lemma drawDecoded_shows (x : string) (img : list Z) (v : Viewer) :
  decode x = Some img → is_Some (offscreen v) →
  drawDecoded decode x v
  = mkViewer (canvas v) (imgObj v) (Some img) (selectionCanvas v)
      (isDragging v) (store v).
Proof.
  intros Hx [ed Ho]. unfold drawDecoded. by rewrite Hx, Ho.
Qed.

Lemma syncHistory_valid (v : Viewer) (x : string) :
  indexValid (store v) → active (store v) = Some x →
  syncHistory decode v = drawDecoded decode x v.
Proof.
  intros [H0 Hl] Ha. unfold syncHistory. cbv zeta.
  unfold active in Ha. rewrite Ha.
  assert ((Js.len (history (store v)) >? 0) = true) as ->
    by (rewrite Z.gtb_ltb; apply Z.ltb_lt; lia).
  assert ((historyIndex (store v) >=? 0) = true) as ->
    by (apply Z.geb_le; lia).
  assert ((historyIndex (store v) <? Js.len (history (store v))) = true) as ->
    by (apply Z.ltb_lt; lia).
  done.
Qed.

(** Once the images are decoded, the offscreen canvas shows the active
    entry. *)
Lemma settle_shows (b : bool) (v : Viewer) (x : string) (img : list Z) :
  indexValid (store v) → active (store v) = Some x →
  processedImage (store v) = Some x →
  decode x = Some img → is_Some (offscreen v) →
  settle decode b v
  = mkViewer (canvas v) (imgObj v) (Some img) (selectionCanvas v)
      (isDragging v) (store v).
Proof.
  intros Hv Ha Hp Hx Ho.
  set (v' := mkViewer (canvas v) (imgObj v) (Some img) (selectionCanvas v)
               (isDragging v) (store v)).
  assert (∀ w, store w = store v → is_Some (offscreen w) →
               canvas w = canvas v → imgObj w = imgObj v →
               selectionCanvas w = selectionCanvas v →
               isDragging w = isDragging v →
               syncHistory decode w = v') as HsH.
  { intros w Hs How Hc Hi Hsel Hd.
    rewrite (syncHistory_valid w x) by (by rewrite Hs).
    rewrite (drawDecoded_shows x img w Hx How). subst v'. congruence. }
  assert (∀ w, store w = store v → is_Some (offscreen w) →
               canvas w = canvas v → imgObj w = imgObj v →
               selectionCanvas w = selectionCanvas v →
               isDragging w = isDragging v →
               syncProcessed decode w = v' ∨ syncProcessed decode w = w)
    as HsP.
  { intros w Hs How Hc Hi Hsel Hd. unfold syncProcessed.
    destruct (_ && _); [|by right]. rewrite Hs, Hp. left.
    rewrite (drawDecoded_shows x img w Hx How). subst v'. congruence. }
  unfold settle. destruct b.
  - rewrite (HsH v) by done.
    destruct (HsP v') as [->| ->]; subst v'; simpl; eauto.
  - destruct (HsP v) as [->| ->]; try done.
    + apply HsH; subst v'; simpl; eauto.
    + by apply HsH.
Qed.

End EffectsExtras.

Section StrokeUndoRedo.

Import Store Viewer Spec Vocabulary Toolbar Effects.

Variable toDataURL : list Z → string.
Variable decode : string → option (list Z).


End StrokeUndoRedo.

Section StrokeUndoRedoWitness.

Import Store Viewer Spec Vocabulary Toolbar Effects.


End StrokeUndoRedoWitness.

Section Sizes.

Import Store Viewer Spec Vocabulary Toolbar Effects Gesture Session.

Variable toDataURL : list Z → string.
Variable fillDisc : Q → Q → Q → string → list Z → list Z.
Variable decode : string → option (list Z).
Variable size : nat.

(** Filling a disc keeps the size of the bitmap, and the images that are
    decoded have the size of the canvas. *)
Hypothesis fill_size : ∀ x y r style sc,
  length (fillDisc x y r style sc) = length sc.
Hypothesis decode_size : ∀ src img, decode src = Some img → length img = size.

Lemma sized_flag (b : bool) (v : Viewer) :
  sized size v → sized size (setIsDragging b v).
Proof. by intros (Hi & Ho & Hs). Qed.

Lemma sized_paint (l : Layout) (e : MouseEvent) (v : Viewer) :
  sized size v → sized size (paintSelection fillDisc l e v).
Proof.
  intros Hp. unfold paintSelection.
  destruct (selectionCanvas v) as [sc|] eqn:Hsc; [|exact Hp].
  destruct (canvas v) eqn:Hc; [|exact Hp].
  destruct (imgObj v) as [orig|] eqn:Hio; [|exact Hp].
  destruct Hp as (Hi & Ho & Hs).
  split; [|split]; simpl.
  - intros orig' [= <-]. by apply Hi.
  - exact Ho.
  - intros sel [= <-]. rewrite fill_size. by apply Hs.
Qed.

Lemma sized_release (v : Viewer) :
  sized size v → sized size (Viewer.handleMouseUp toDataURL v).
Proof.
  intros Hp. unfold Viewer.handleMouseUp.
  assert (sized size (applySmartSelection toDataURL v)) as Hp'.
  { destruct (applySmartSelection_cases toDataURL v)
      as [->|(ed & sel & orig & ed' & Ho & Hs & Hi & Hc & Hl & ->)]; [done|].
    destruct Hp as (Hpi & Hpo & Hps). split; [|split]; simpl.
    - intros orig' [= <-]. by apply Hpi.
    - intros ed'' [= <-]. rewrite Hl. by apply Hpo.
    - intros sel' [= <-]. rewrite length_replicate. by apply Hps. }
  destruct (isDragging v); [exact Hp'|exact Hp].
Qed.

Lemma sized_draw (src : string) (v : Viewer) :
  sized size v → sized size (drawDecoded decode src v).
Proof.
  intros Hp. unfold drawDecoded.
  destruct (decode src) as [img|] eqn:Hd; [|exact Hp].
  destruct (offscreen v); [|exact Hp].
  destruct Hp as (Hi & Ho & Hs).
  split; [|split]; simpl; try done.
  intros ed [= <-]. by apply (decode_size src).
Qed.

Lemma sized_step (p : Pointer) (st : Step) :
  sized size (view p) →
  sized size (view (Session.step toDataURL fillDisc decode p st)).
Proof.
  intros Hp. destruct st as [[l e|l e|]| | | |a];
    cbn [Session.step Gesture.handle].
  - unfold handleMouseDown. destruct (_ || _); [by apply sized_flag|].
    destruct (button e =? 0); [|exact Hp].
    by apply sized_flag, sized_paint.
  - unfold handleMouseMove. destruct (isDragging (view p)); simpl; [|exact Hp].
    destruct (_ || _); [by destruct Hp as (? & ? & ?)|].
    destruct (buttons e =? 1); [|exact Hp]. by apply sized_paint.
  - by apply sized_release.
  - unfold onView, loadOriginal. cbn [view].
    destruct (originalImage _) as [src|]; [|exact Hp].
    destruct (Js.truthy (Some src)); [|exact Hp].
    destruct (decode src) as [img|] eqn:Hd; [|exact Hp].
    pose proof (decode_size src img Hd) as Hl.
    split; [|split]; simpl.
    + by intros orig [= <-].
    + by intros ed [= <-].
    + intros sel [= <-]. by rewrite length_replicate.
  - unfold onView, syncHistory. cbn [view].
    destruct (_ && _); [|exact Hp].
    destruct (Js.index _ _) as [src|]; [|exact Hp]. by apply sized_draw.
  - unfold onView, syncProcessed. cbn [view].
    destruct (_ && _); [|exact Hp].
    destruct (processedImage _) as [src|]; [|exact Hp]. by apply sized_draw.
  - by destruct Hp as (? & ? & ?).
Qed.


End Sizes.

Section SessionWitnesses.

Import Store Viewer Spec Vocabulary Toolbar Effects Gesture Session.


Lemma no_marks_outside_a_drag_witness :
  applySmartSelection (λ _, "png")
    (view (Session.run (λ _, "png") (λ _ _ _ _ sc, <[3%nat := 255]> sc)
             (λ _, Some [7; 7; 7; 255])
             [Dispatch (SetOriginalImage (Some "o")); LoadOriginal;
              Mouse (Down (mkLayout 0 0 1 1 1 1) (mkMouse 0 1 false 0 0));
              Mouse Up]
             start))
  = view (Session.run (λ _, "png") (λ _ _ _ _ sc, <[3%nat := 255]> sc)
            (λ _, Some [7; 7; 7; 255])
            [Dispatch (SetOriginalImage (Some "o")); LoadOriginal;
             Mouse (Down (mkLayout 0 0 1 1 1 1) (mkMouse 0 1 false 0 0));
             Mouse Up]
            start).
Proof.
  apply (no_marks_outside_a_drag (λ _, "png")
           (λ _ _ _ _ sc, <[3%nat := 255]> sc) (λ _, Some [7; 7; 7; 255])
           [Dispatch (SetOriginalImage (Some "o")); LoadOriginal;
            Mouse (Down (mkLayout 0 0 1 1 1 1) (mkMouse 0 1 false 0 0));
            Mouse Up]).
  reflexivity.
Defined.

Lemma undos_redos_roundtrip_witness :
  Nat.iter 2 redo
    (Nat.iter 2 undo
       (Store.run [SetProcessedImage (Some "p"); AddToHistory "q";
                   AddToHistory "r"] initial))
  = Store.run [SetProcessedImage (Some "p"); AddToHistory "q";
               AddToHistory "r"] initial.
Proof.
  destruct (undos_redos_roundtrip 2
    (Store.run [SetProcessedImage (Some "p"); AddToHistory "q";
                AddToHistory "r"] initial)) as [H _].
  - vm_compute. split; [discriminate|reflexivity].
  - split; reflexivity.
  - apply H. vm_compute. discriminate.
Defined.

End SessionWitnesses.
